(** * mangrove_map: yearly mosaics, cumulative gain/loss masks, overlay frames

    A shallow embedding of [main_script.py]: [mosaic_year_tiles] and [main].
    Pure numpy expressions become list functions, Python exceptions become
    an error result, and the effects of [main] (directory creation, console
    output, saved figures) are collected in a trace. *)

From Stdlib Require Import ZArith Floats Uint63 Ascii DecimalString.
From stdpp Require Import list strings gmap sorting.

Local Open Scope string_scope.
Local Open Scope Z_scope.

(** ** Python exceptions *)

Module Py.

Inductive exn : Type :=
  | FileNotFoundError (msg : string)
  | ValueError      (* operands could not be broadcast together *)
  | IndexError      (* boolean index did not match / index out of bounds *)
  | KeyError (key : string)
  | OSError (what : string)
  | RasterioError (what : string).

Inductive result (A : Type) : Type :=
  | Ok (a : A)
  | Raise (e : exn).
Arguments Ok {A} a.
Arguments Raise {A} e.

Definition is_ok {A} (r : result A) : bool :=
  match r with Ok _ => true | Raise _ => false end.

#[global] Instance result_ret : MRet result := fun _ a => Ok a.
#[global] Instance result_bind : MBind result := fun _ _ k r =>
  match r with Ok a => k a | Raise e => Raise e end.

(** [[f(x) for x in xs]] when [f] may raise: left to right, first error wins. *)
Fixpoint map_result {A B} (f : A -> result B) (xs : list A) : result (list B) :=
  match xs with
  | [] => Ok []
  | x :: xs' => y ← f x; ys ← map_result f xs'; mret (y :: ys)
  end.

End Py.
Export Py.

(** ** The numpy fragment used by the script

    A two-dimensional array is the list of its rows.  numpy arrays are
    rectangular ([rect]); an array without rows has shape (0, 0) here, which
    is enough for mosaics (a merged raster has at least one row and column).
    Cell values of rasters are integers. *)

Module Np.

Abbreviation ndarray A := (list (list A)) (only parsing).
Abbreviation grid := (list (list Z)) (only parsing).
Abbreviation mask := (list (list bool)) (only parsing).

Definition ncols {A} (a : ndarray A) : nat :=
  match a with [] => 0%nat | r :: _ => length r end.

(** [a.shape] *)
Definition shape {A} (a : ndarray A) : nat * nat := (length a, ncols a).

Definition rect {A} (a : ndarray A) : Prop :=
  Forall (fun r => length r = ncols a) a.

(** [a[i, j]], when in range *)
Definition cell {A} (a : ndarray A) (i j : nat) : option A :=
  r ← a !! i; r !! j.

(** an elementwise operation on one array *)
Definition map_cells {A B} (f : A -> B) (a : ndarray A) : ndarray B :=
  (fun r : list A => f <$> r) <$> a.

(** [a == v] for a scalar [v] *)
Definition eq_scalar (a : grid) (v : Z) : mask := map_cells (fun x => x =? v) a.

(** numpy broadcasting of two dimensions: equal, or one of them is 1 *)
Definition compat (n m : nat) : bool :=
  (n =? m)%nat || (n =? 1)%nat || (m =? 1)%nat.
Definition bdim (n m : nat) : nat := if (n =? 1)%nat then m else n.
Definition stretch {A} (n : nat) (xs : list A) : list A :=
  match xs with [x] => replicate n x | _ => xs end.
Definition broadcast_to {A} (h w : nat) (a : ndarray A) : ndarray A :=
  stretch h ((fun r : list A => stretch w r) <$> a).

(** [a & b] on boolean arrays *)
Definition logical_and (a b : mask) : result mask :=
  let '(h1, w1) := shape a in
  let '(h2, w2) := shape b in
  if compat h1 h2 && compat w1 w2 then
    let h := bdim h1 h2 in
    let w := bdim w1 w2 in
    Ok (zip_with (zip_with andb) (broadcast_to h w a) (broadcast_to h w b))
  else Raise ValueError.

(** [np.zeros_like(a, dtype=bool)] *)
Definition zeros_like {A} (a : ndarray A) : mask := map_cells (fun _ => false) a.

(** [np.zeros((h, w, 4), dtype=np.uint8)] seen as an h x w array of pixels *)
Definition zeros {A} (h w : nat) (zero : A) : ndarray A := replicate h (replicate w zero).

Definition shape_eqb (s t : nat * nat) : bool :=
  (s.1 =? t.1)%nat && (s.2 =? t.2)%nat.

(** [a[m] = v] for a boolean index [m] covering the first two axes of [a]:
    the cells selected by [m] take the value [v], the others keep theirs;
    the index must have the shape of these axes. *)
Definition paint {A} (a : ndarray A) (m : mask) (v : A) : ndarray A :=
  zip_with (zip_with (fun x (b : bool) => if b then v else x)) a m.
Definition setitem_mask {A} (a : ndarray A) (m : mask) (v : A) : result (ndarray A) :=
  if shape_eqb (shape a) (shape m) then Ok (paint a m v) else Raise IndexError.

(** [np.sum(m)] of a boolean array: the number of true cells *)
Definition count_row (r : list bool) : Z := Z.of_nat (length (filter (fun b => b = true) r)).
Definition sum (m : mask) : Z := foldr (fun r acc => count_row r + acc) 0 m.

(** [np.where(a > 0, 1, 0)] *)
Definition threshold (x : Z) : Z := if 0 <? x then 1 else 0.
Definition where_gt0 (a : grid) : grid := map_cells threshold a.

(** [a[0]] on the band axis *)
Definition first_band {A} (bands : list (ndarray A)) : result (ndarray A) :=
  match bands with
  | [] => Raise IndexError
  | b :: _ => Ok b
  end.

End Np.

(** ** Paths and file-name matching (POSIX) *)

Module Path.

(** [s.endswith(suf)] *)
Definition endswith (s suf : string) : bool :=
  (String.length suf <=? String.length s)%nat &&
  String.eqb (String.substring (String.length s - String.length suf) (String.length suf) s) suf.

(** [s.startswith(pre)] *)
Definition startswith (s pre : string) : bool := String.prefix pre s.

(** [os.path.join(a, b)] *)
Definition join (a b : string) : string :=
  if startswith b "/" then b
  else if String.eqb a "" || endswith a "/" then a +:+ b
  else a +:+ "/" +:+ b.

(** [glob._ishidden]: the name starts with a dot *)
Definition ishidden (name : string) : bool := startswith name ".".

(** What the pattern "*.tif" selects in a directory listing: [fnmatch]
    asks for the suffix (case-sensitively), and a pattern that does not
    itself start with a dot never selects a hidden name. *)
Definition matches_tif (name : string) : bool :=
  negb (ishidden name) && endswith name ".tif".

End Path.

(** ** Formatting a float with two decimals

    [f"{x:.2f}"] prints the decimal with two fractional digits nearest to
    the exact binary value of [x], ties going to the even last digit. *)

Module Fmt.

(** nearest integer to n / d (for 0 < d), ties to even *)
Definition round_half_even (n d : Z) : Z :=
  let q := n / d in
  match 2 * (n mod d) ?= d with
  | Lt => q
  | Gt => q + 1
  | Eq => if Z.even q then q else q + 1
  end.

(** the value m * 2^e in hundredths, rounded *)
Definition hundredths (m : positive) (e : Z) : Z :=
  if 0 <=? e then 100 * Z.pos m * 2 ^ e
  else round_half_even (100 * Z.pos m) (2 ^ (- e)).

Definition decimal (n : Z) : string := NilZero.string_of_uint (N.to_uint (Z.to_N n)).

Definition two_digits (n : Z) : string := decimal (n / 10) +:+ decimal (n mod 10).

(** the text of h hundredths: integer part, point, two digits *)
Definition fixed2 (h : Z) : string := decimal (h / 100) +:+ "." +:+ two_digits (h mod 100).

Definition sign (s : bool) : string := if s then "-" else "".

Definition format_2f (x : float) : string :=
  match Prim2SF x with
  | S754_zero s => sign s +:+ "0.00"
  | S754_infinity s => sign s +:+ "inf"
  | S754_nan => "nan"
  | S754_finite s m e => sign s +:+ fixed2 (hundredths m e)
  end.

End Fmt.

(** ** The script *)

Import Np.

(** An RGBA pixel of the overlay, four [uint8] channels. *)
Definition pixel : Type := (Z * Z * Z * Z)%type.
Definition transparent : pixel := (0, 0, 0, 0).
Definition gain_color : pixel := (255, 255, 0, 255).
Definition loss_color : pixel := (255, 0, 0, 255).

(** What [plt.savefig] receives: the image shown on the axes and the text
    drawn over it. *)
Record figure : Type := Figure {
  fig_rgba : ndarray pixel;
  fig_text : string;
  fig_fontsize : Z;
  fig_fontfamily : string
}.

(** Effects of [main], in program order.  [CallMosaic] is a ghost event
    recording each call of [mosaic_year_tiles] made by [main]. *)
Inductive event : Type :=
  | Makedirs (path : string)
  | CallMosaic (year_path : string)
  | Print (line : string)
  | Savefig (path : string) (fig : figure).

(** A computation of [main]: the events it emitted, and its value or the
    exception that ended it. *)
Definition M (A : Type) : Type := (list event * result A)%type.

#[global] Instance M_ret : MRet M := fun _ a => ([], Ok a).
#[global] Instance M_bind : MBind M := fun _ _ k m =>
  match m with
  | (t, Ok a) => let '(t', r) := k a in ((t ++ t')%list, r)
  | (t, Raise e) => (t, Raise e)
  end.
Definition emit (e : event) : M unit := ([e], Ok tt).
Definition lift {A} (r : result A) : M A := ([], r).

Definition newline : string := String "010"%char "".

(** [pixel_area_km2 = 0.000350], the binary64 number the literal denotes *)
Definition pixel_area_km2 : float := 0x1.6f0068db8bac7p-12%float.

(** [np.sum(m) * pixel_area_km2]: the count (an int64) becomes a float and
    is multiplied in binary64. *)
Definition area_km2 (m : mask) : float :=
  PrimFloat.mul (PrimFloat.of_uint63 (Uint63.of_Z (Np.sum m))) pixel_area_km2.

(** the f-string of lines 102-106 *)
Definition title_text (y : string) (total_gains_area total_losses_area : float) : string :=
  "Year: " +:+ y +:+ newline +:+
  "Cumulative Gains: " +:+ Fmt.format_2f total_gains_area +:+ " km²" +:+ newline +:+
  "Cumulative Losses: " +:+ Fmt.format_2f total_losses_area +:+ " km²".

(** [sorted] on strings: Python compares by code point, which on UTF-8
    encoded names is the byte-wise lexicographic order [String.leb]. *)
Definition str_le (a b : string) : Prop := String.leb a b = true.
#[global] Instance str_le_dec a b : Decision (str_le a b).
Proof. unfold str_le. apply _. Defined.
Definition sorted (l : list string) : list string := merge_sort str_le l.

(** The loop variables of [main] that outlive an iteration.  The two
    cumulative masks are created together (lines 54-57), hence one option. *)
Record loop_state : Type := LoopState {
  cumulative : option (mask * mask);   (* cumulative_losses, cumulative_gains *)
  previous_arr : option grid
}.
Definition cumulative_losses (st : loop_state) : option mask := fst <$> cumulative st.
Definition cumulative_gains (st : loop_state) : option mask := snd <$> cumulative st.

Definition init_state : loop_state := LoopState None None.

(** lines 64-65 *)
Definition gains_of (prev curr : grid) : result mask :=
  logical_and (eq_scalar prev 0) (eq_scalar curr 1).
Definition losses_of (prev curr : grid) : result mask :=
  logical_and (eq_scalar prev 1) (eq_scalar curr 0).

(** lines 54-69: the masks after looking at the current year *)
Definition update_masks (st : loop_state) (current_arr : grid) : result (mask * mask) :=
  let '(cl, cg) := match cumulative st with
                   | None => (zeros_like current_arr, zeros_like current_arr)
                   | Some c => c
                   end in
  match previous_arr st with
  | None => Ok (cl, cg)
  | Some prev =>
      gains ← gains_of prev current_arr;
      losses ← losses_of prev current_arr;
      cg' ← setitem_mask cg gains true;
      cl' ← setitem_mask cl losses true;
      mret (cl', cg')
  end.

(** lines 73-81 *)
Definition render (current_arr : grid) (cl cg : mask) : result (ndarray pixel) :=
  let '(height, width) := shape current_arr in
  let rgba := zeros height width transparent in
  rgba ← setitem_mask rgba cg gain_color;
  setitem_mask rgba cl loss_color.

Section Script.

(** The surroundings of the script: the directory tree as the script sees
    it once the output directory exists, the raster library, and the fonts
    matplotlib knows. *)
Variable transform : Type.
Variable dataset : Type.
Variable listdir : string -> result (list string).          (* os.listdir *)
Variable isdir : string -> bool.                             (* os.path.isdir *)
Variable rasterio_open : string -> result dataset.           (* rasterio.open *)
Variable merge : list dataset -> result (list grid * transform).  (* rasterio.merge.merge *)
Variable ttflist : list string.                              (* font names *)

(** [glob.glob(os.path.join(year_path, "*.tif"))].  The directory part of
    the pattern is read literally (year paths contain none of the glob
    metacharacters), and a directory that cannot be listed yields nothing. *)
Definition glob_tif (year_path : string) : list string :=
  match listdir year_path with
  | Ok names => Path.join year_path <$> filter (fun n => Path.matches_tif n = true) names
  | Raise _ => []
  end.

Definition mosaic_year_tiles (year_path : string) : result (grid * transform) :=
  let tif_files := glob_tif year_path in
  match tif_files with
  | [] => Raise (FileNotFoundError ("No .tif files found in " +:+ year_path))
  | _ =>
      srcs ← map_result rasterio_open tif_files;
      '(mosaic_arr, mosaic_transform) ← merge srcs;
      mosaic_arr ← first_band mosaic_arr;
      (* the datasets are closed here *)
      mret (where_gt0 mosaic_arr, mosaic_transform)
  end.

(** line 35 *)
Definition list_years (data_dir : string) : result (list string) :=
  names ← listdir data_dir;
  mret (sorted (filter (fun d => isdir (Path.join data_dir d) = true) names)).

(** lines 38-41 *)
Fixpoint load_years (data_dir : string) (years : list string)
    (year_arrays : gmap string grid) : M (gmap string grid) :=
  match years with
  | [] => mret year_arrays
  | y :: years' =>
      _ ← emit (CallMosaic (Path.join data_dir y));
      '(arr, _) ← lift (mosaic_year_tiles (Path.join data_dir y));
      load_years data_dir years' (<[y := arr]> year_arrays)
  end.

(** [year_arrays[y]] *)
Definition getitem (year_arrays : gmap string grid) (y : string) : result grid :=
  match year_arrays !! y with
  | Some arr => Ok arr
  | None => Raise (KeyError y)
  end.

(** lines 92-99 *)
Definition choose_font : M string :=
  if decide ("Roboto" ∈ ttflist) then mret "Roboto"
  else
    _ ← emit (Print "Warning: The font 'Roboto' is not found. Using default font.");
    mret "sans-serif".

(** lines 52-124: one iteration of the rendering loop *)
Definition loop_body (output_dir : string) (year_arrays : gmap string grid)
    (st : loop_state) (y : string) : M loop_state :=
  current_arr ← lift (getitem year_arrays y);
  '(cl, cg) ← lift (update_masks st current_arr);
  rgba ← lift (render current_arr cl cg);
  let total_gains_area := area_km2 cg in
  let total_losses_area := area_km2 cl in
  font_style ← choose_font;
  let text := title_text y total_gains_area total_losses_area in
  let output_path := Path.join output_dir (y +:+ ".png") in
  _ ← emit (Savefig output_path (Figure rgba text 12 font_style));
  _ ← emit (Print ("Saved " +:+ output_path));
  mret (LoopState (Some (cl, cg)) (Some current_arr)).

(** lines 51-124 *)
Fixpoint run_loop (output_dir : string) (year_arrays : gmap string grid)
    (years : list string) (st : loop_state) : M loop_state :=
  match years with
  | [] => mret st
  | y :: years' =>
      st' ← loop_body output_dir year_arrays st y;
      run_loop output_dir year_arrays years' st'
  end.

Definition main (data_dir output_dir : string) : M unit :=
  _ ← emit (Makedirs output_dir);
  years ← lift (list_years data_dir);
  year_arrays ← load_years data_dir years ∅;
  _ ← run_loop output_dir year_arrays years init_state;
  mret tt.

End Script.

(** ** Vocabulary of the statements *)

(** numpy arrays are rectangular; so are the arrays a run holds *)
Definition wf_arrays (year_arrays : gmap string (list (list Z))) : Prop :=
  forall y arr, year_arrays !! y = Some arr -> rect arr.

Definition wf_state (st : loop_state) : Prop :=
  match cumulative st, previous_arr st with
  | None, None => True
  | Some (cl, cg), Some prev =>
      rect cl /\ rect cg /\ rect prev /\
      shape cl = shape prev /\ shape cg = shape prev
  | _, _ => False
  end.

(** the two comparisons of lines 64-65 on grids of one shape *)
Definition gained (prev curr : list (list Z)) : list (list bool) :=
  zip_with (zip_with andb) (eq_scalar prev 0) (eq_scalar curr 1).
Definition lost (prev curr : list (list Z)) : list (list bool) :=
  zip_with (zip_with andb) (eq_scalar prev 1) (eq_scalar curr 0).

(** the image of lines 73-81 when the masks have the shape of the grid *)
Definition overlay (h w : nat) (cl cg : list (list bool)) : list (list pixel) :=
  paint (paint (zeros h w transparent) cg gain_color) cl loss_color.

(** every cell set in [m] is set in [m'] *)
Definition mask_le (m m' : mask) : Prop :=
  forall i j, cell m i j = Some true -> cell m' i j = Some true.

(** the pair (cumulative_losses, cumulative_gains) only grows from [c] to
    [c']: cell by cell, and hence in the number of true cells *)
Definition grows (c c' : list (list bool) * list (list bool)) : Prop :=
  mask_le c.1 c'.1 /\ mask_le c.2 c'.2 /\
  Np.sum c.1 <= Np.sum c'.1 /\ Np.sum c.2 <= Np.sum c'.2.

(** the font an iteration ends up with, and what it prints on the way *)
Definition font_family (ttflist : list string) : string :=
  if decide ("Roboto" ∈ ttflist) then "Roboto" else "sans-serif".
Definition font_events (ttflist : list string) : list event :=
  if decide ("Roboto" ∈ ttflist) then []
  else [Print "Warning: The font 'Roboto' is not found. Using default font."].

(** the figure of one year, and the events of its iteration *)
Definition year_figure (ttflist : list string) (y : string)
    (rgba : list (list pixel)) (cl cg : list (list bool)) : figure :=
  Figure rgba (title_text y (area_km2 cg) (area_km2 cl)) 12 (font_family ttflist).
Definition year_events (ttflist : list string) (output_dir y : string)
    (rgba : list (list pixel)) (cl cg : list (list bool)) : list event :=
  (font_events ttflist ++
   [Savefig (Path.join output_dir (y +:+ ".png")) (year_figure ttflist y rgba cl cg);
    Print ("Saved " +:+ Path.join output_dir (y +:+ ".png"))])%list.

(** the figures saved, the paths written and the directories mosaicked
    during a run, each in program order *)
Definition frames (t : list event) : list figure :=
  omap (fun e => match e with Savefig _ fig => Some fig | _ => None end) t.
Definition saved_paths (t : list event) : list string :=
  omap (fun e => match e with Savefig path _ => Some path | _ => None end) t.
Definition mosaic_calls (t : list event) : list string :=
  omap (fun e => match e with CallMosaic p => Some p | _ => None end) t.

(** the numbers of true cells (gains, losses) a run of the loop ends with *)
Definition true_counts (st : loop_state) : option (Z * Z) :=
  (fun c : list (list bool) * list (list bool) => (Np.sum c.2, Np.sum c.1)) <$> cumulative st.
Definition final_counts (m : M loop_state) : option (Z * Z) :=
  match m.2 with
  | Ok st => true_counts st
  | Raise _ => None
  end.

(** ** A three-year data set

    A root directory "data" with the year directories 2000, 2001 and 2002
    (listed out of order, next to a plain file), one tile per year, whose
    merged band is the binary grid of that year. *)

Module Scenario.

Definition grid2000 : list (list Z) := [[0; 0]; [0; 0]].
Definition grid2001 : list (list Z) := [[1; 0]; [0; 0]].
Definition grid2002 : list (list Z) := [[1; 0]; [1; 1]].

Definition listdir (p : string) : result (list string) :=
  if String.eqb p "data" then Ok ["2002"; "README.txt"; "2000"; "2001"]
  else if String.eqb p "data/README.txt" then Raise (OSError p)
  else if Path.startswith p "data/" then Ok ["tile.tif"; "tile.tif.aux.xml"]
  else Raise (OSError p).

Definition isdir (p : string) : bool :=
  Path.startswith p "data" && negb (Path.endswith p ".txt").

Definition rasterio_open (p : string) : result string := Ok p.

Definition merge (srcs : list string) : result (list (list (list Z)) * unit) :=
  match srcs with
  | [p] =>
      if String.eqb p "data/2000/tile.tif" then Ok ([grid2000], tt)
      else if String.eqb p "data/2001/tile.tif" then Ok ([grid2001], tt)
      else if String.eqb p "data/2002/tile.tif" then Ok ([grid2002], tt)
      else Raise (RasterioError p)
  | _ => Raise (RasterioError "merge")
  end.

Definition ttflist : list string := ["DejaVu Sans"].

Definition year_arrays : gmap string (list (list Z)) :=
  <["2002" := grid2002]> (<["2001" := grid2001]> (<["2000" := grid2000]> ∅)).

Definition years : list string := ["2000"; "2001"; "2002"].

(** the loop of [main] over the first [n] years *)
Definition run (n : nat) : M loop_state :=
  run_loop ttflist "out" year_arrays (take n years) init_state.

(** a second data set of one cell: absent, gained in 2001, lost in 2002 *)
Definition flicker_arrays : gmap string (list (list Z)) :=
  <["2003" := [[0]]]> (<["2002" := [[0]]]> (<["2001" := [[1]]]> (<["2000" := [[0]]]> ∅))).

End Scenario.

(** ** Further vocabulary

    Used by the statements on shapes, on the history of a cell and on the
    failures of a run. *)

(** two shapes that numpy can broadcast against each other *)
Definition compat_shapes (s t : nat * nat) : bool :=
  compat s.1 t.1 && compat s.2 t.2.

(** in the sequence [ys], some year directly follows another with the cell
    (i, j) going from value [u] to value [v] *)
Definition transition_at (year_arrays : gmap string (list (list Z)))
    (ys : list string) (u v : Z) (i j : nat) : Prop :=
  exists k yp yc ap ac,
    ys !! k = Some yp /\ ys !! S k = Some yc /\
    year_arrays !! yp = Some ap /\ year_arrays !! yc = Some ac /\
    cell ap i j = Some u /\ cell ac i j = Some v.

(** a presence grid: every cell is 0 or 1 *)
Definition binary (a : list (list Z)) : Prop :=
  forall i j v, cell a i j = Some v -> v = 0 \/ v = 1.

(** the console lines of a run *)
Definition printed (t : list event) : list string :=
  omap (fun e => match e with Print line => Some line | _ => None end) t.

(** the line printed when the font is missing (line 98) *)
Definition font_warning : string :=
  "Warning: The font 'Roboto' is not found. Using default font.".

(** the number of pixels of an image that have the colour [p] *)
Definition count_color (p : Z * Z * Z * Z) (row : list (Z * Z * Z * Z)) : Z :=
  Z.of_nat (length (filter (fun q => q = p) row)).
Definition count_pixels (p : Z * Z * Z * Z) (rgba : list (list (Z * Z * Z * Z))) : Z :=
  foldr (fun row acc => count_color p row + acc) 0 rgba.

(** two years whose mosaics differ in shape (1 x 2 against 1 x 1) *)
Module Mismatch.
Definition year_arrays : gmap string (list (list Z)) :=
  <["2001" := [[1]]]> (<["2000" := [[0; 1]]]> ∅).
End Mismatch.

(** the three-year root again, the directory of 2001 holding no tile *)
Module Broken.
Definition listdir (p : string) : result (list string) :=
  if String.eqb p "data" then Ok ["2002"; "2000"; "2001"]
  else if String.eqb p "data/2001" then Ok ["notes.txt"]
  else Ok ["tile.tif"].
End Broken.

(** * Properties *)

(** ** Arrays *)

Lemma stretch_id {A} (n : nat) (r : list A) : length r = n -> stretch n r = r.
Proof. intros <-. by destruct r as [|x [|y r]]. Qed.

Section OneArray.
Context {A : Type}.
Implicit Types (a : ndarray A).

(** in a rectangular array, the cells in range are those below the shape *)
Lemma cell_is_Some a i j :
  rect a -> (is_Some (cell a i j) <-> (i < length a)%nat /\ (j < ncols a)%nat).
Proof.
  intros Hr. unfold cell. split.
  - intros [x Hx]. destruct (a !! i) as [r|] eqn:Hi; simpl in Hx; [|done].
    split; [by eapply lookup_lt_Some|].
    rewrite <- (proj1 (Forall_lookup _ _) Hr i r Hi). by eapply lookup_lt_Some.
  - intros [Hi Hj]. destruct (lookup_lt_is_Some_2 a i Hi) as [r Hri].
    rewrite Hri. simpl. apply lookup_lt_is_Some_2.
    by rewrite (proj1 (Forall_lookup _ _) Hr i r Hri).
Qed.

Lemma broadcast_to_id a : rect a -> broadcast_to (length a) (ncols a) a = a.
Proof.
  intros Hr. unfold broadcast_to.
  assert ((fun r : list A => stretch (ncols a) r) <$> a = a) as ->.
  { rewrite <- (list_fmap_id a) at 2. apply Forall_fmap_ext.
    eapply Forall_impl; [exact Hr|]. intros r Hl. by apply stretch_id. }
  by apply stretch_id.
Qed.

Lemma rect_zeros (h w : nat) (z : A) : rect (zeros h w z).
Proof.
  unfold rect, zeros. destruct h as [|h]; [constructor|].
  apply Forall_replicate. simpl. done.
Qed.

Lemma cell_zeros (h w : nat) (z : A) i j :
  (i < h)%nat -> (j < w)%nat -> cell (zeros h w z) i j = Some z.
Proof.
  intros Hi Hj. unfold cell, zeros.
  rewrite (lookup_replicate_2 h _ i Hi). simpl. by apply lookup_replicate_2.
Qed.

End OneArray.

Section TwoArrays.
Context {A B C : Type}.
Implicit Types (a : ndarray A) (b : ndarray B).

Lemma cell_map_cells (f : A -> B) a i j :
  cell (map_cells f a) i j = f <$> cell a i j.
Proof.
  unfold cell, map_cells. rewrite list_lookup_fmap.
  destruct (a !! i) as [r|]; simpl; [apply list_lookup_fmap | done].
Qed.

Lemma cell_zip_with (f : A -> B -> C) a b i j :
  cell (zip_with (zip_with f) a b) i j =
    x ← cell a i j; y ← cell b i j; Some (f x y).
Proof.
  unfold cell. rewrite lookup_zip_with.
  destruct (a !! i) as [r|]; simpl; [|done].
  destruct (b !! i) as [s|]; simpl.
  - rewrite lookup_zip_with. done.
  - by destruct (r !! j).
Qed.

Lemma shape_map_cells (f : A -> B) a : shape (map_cells f a) = shape a.
Proof.
  unfold shape, map_cells. rewrite length_fmap. f_equal.
  destruct a as [|r a]; simpl; [done | apply length_fmap].
Qed.

Lemma rect_map_cells (f : A -> B) a : rect a -> rect (map_cells f a).
Proof.
  unfold rect. intros H.
  assert (ncols (map_cells f a) = ncols a) as ->
    by (pose proof (shape_map_cells f a) as E; by injection E).
  unfold map_cells. apply Forall_fmap. eapply Forall_impl; [exact H|].
  intros r Hr. simpl. by rewrite length_fmap.
Qed.

Lemma cell_same_shape a b i j :
  rect a -> rect b -> shape a = shape b ->
  (is_Some (cell a i j) <-> is_Some (cell b i j)).
Proof.
  intros Ha Hb Hs. rewrite !cell_is_Some by done.
  unfold shape in Hs. injection Hs as H1 H2. by rewrite H1, H2.
Qed.

Lemma shape_zeros (z : B) a : shape (zeros (length a) (ncols a) z) = shape a.
Proof.
  unfold shape, zeros. rewrite length_replicate. f_equal.
  destruct a as [|r a]; simpl; [done | apply length_replicate].
Qed.

Lemma shape_zip_with (f : A -> B -> C) a b :
  shape a = shape b -> shape (zip_with (zip_with f) a b) = shape a.
Proof.
  unfold shape. intros E. injection E as E1 E2.
  rewrite length_zip_with. f_equal; [lia|].
  destruct a as [|r a], b as [|s b]; simpl in *; try done.
  rewrite length_zip_with. lia.
Qed.

Lemma rect_zip_with (f : A -> B -> C) a b :
  rect a -> rect b -> shape a = shape b -> rect (zip_with (zip_with f) a b).
Proof.
  intros Ha Hb Hs. unfold rect.
  assert (ncols (zip_with (zip_with f) a b) = ncols a) as ->
    by (pose proof (shape_zip_with f a b Hs) as E; by injection E).
  apply Forall_lookup. intros i r Hi.
  rewrite lookup_zip_with in Hi.
  destruct (a !! i) as [ra|] eqn:Hai; simpl in Hi; [|done].
  destruct (b !! i) as [rb|] eqn:Hbi; simpl in Hi; [|done].
  injection Hi as <-. rewrite length_zip_with.
  rewrite (proj1 (Forall_lookup _ _) Ha i ra Hai).
  rewrite (proj1 (Forall_lookup _ _) Hb i rb Hbi).
  unfold shape in Hs. injection Hs as _ E2. lia.
Qed.

End TwoArrays.

Lemma logical_and_same_shape (a b : mask) :
  rect a -> rect b -> shape a = shape b ->
  logical_and a b = Ok (zip_with (zip_with andb) a b).
Proof.
  intros Ha Hb Hs. unfold logical_and, shape in *. injection Hs as E1 E2.
  rewrite <- E1, <- E2.
  assert (forall n, compat n n = true) as Hc
    by (intros n; unfold compat; by rewrite Nat.eqb_refl).
  assert (forall n, bdim n n = n) as Hd by (intros n; unfold bdim; by destruct (n =? 1)%nat).
  rewrite !Hc, !Hd. simpl. rewrite (broadcast_to_id a Ha).
  rewrite E1, E2. by rewrite (broadcast_to_id b Hb).
Qed.

(** ** Single-year transitions *)

Lemma gains_of_same_shape (prev curr : grid) :
  rect prev -> rect curr -> shape prev = shape curr ->
  gains_of prev curr =
    Ok (zip_with (zip_with andb) (eq_scalar prev 0) (eq_scalar curr 1)).
Proof.
  intros Hp Hc Hs. unfold gains_of, eq_scalar.
  apply logical_and_same_shape; try by apply rect_map_cells.
  by rewrite !shape_map_cells.
Qed.

Lemma losses_of_same_shape (prev curr : grid) :
  rect prev -> rect curr -> shape prev = shape curr ->
  losses_of prev curr =
    Ok (zip_with (zip_with andb) (eq_scalar prev 1) (eq_scalar curr 0)).
Proof.
  intros Hp Hc Hs. unfold losses_of, eq_scalar.
  apply logical_and_same_shape; try by apply rect_map_cells.
  by rewrite !shape_map_cells.
Qed.

Lemma cell_transition (prev curr : grid) (u v : Z) i j :
  cell (zip_with (zip_with andb) (eq_scalar prev u) (eq_scalar curr v)) i j =
    a ← cell prev i j; b ← cell curr i j; Some ((a =? u) && (b =? v)).
Proof.
  rewrite cell_zip_with. unfold eq_scalar. rewrite !cell_map_cells.
  destruct (cell prev i j); simpl; [|done]. by destruct (cell curr i j).
Qed.

Lemma shape_transition (prev curr : grid) (u v : Z) :
  shape prev = shape curr ->
  shape (zip_with (zip_with andb) (eq_scalar prev u) (eq_scalar curr v)) = shape prev.
Proof.
  intros Hs. unfold eq_scalar. rewrite shape_zip_with; rewrite !shape_map_cells; done.
Qed.

Lemma rect_transition (prev curr : grid) (u v : Z) :
  rect prev -> rect curr -> shape prev = shape curr ->
  rect (zip_with (zip_with andb) (eq_scalar prev u) (eq_scalar curr v)).
Proof.
  intros Hp Hc Hs. unfold eq_scalar.
  apply rect_zip_with; try by apply rect_map_cells.
  by rewrite !shape_map_cells.
Qed.

(** C1: for two consecutive grids of the same shape, the comparison of
    lines 64-65 succeeds; at every cell, with [a] the previous and [b] the
    current value, the cell is marked gained exactly when a = 0 and b = 1,
    marked lost exactly when a = 1 and b = 0, and never both. *)
Theorem transition_marking (prev curr : grid) :
  rect prev -> rect curr -> shape prev = shape curr ->
  exists gains losses : mask,
    gains_of prev curr = Ok gains /\ losses_of prev curr = Ok losses /\
    shape gains = shape prev /\ shape losses = shape prev /\
    forall i j a b, cell prev i j = Some a -> cell curr i j = Some b ->
      exists g l : bool,
        cell gains i j = Some g /\ cell losses i j = Some l /\
        (g = true <-> a = 0 /\ b = 1) /\
        (l = true <-> a = 1 /\ b = 0) /\
        ~ (g = true /\ l = true).
Proof.
  intros Hp Hc Hs. eexists _, _.
  split; [by apply gains_of_same_shape|].
  split; [by apply losses_of_same_shape|].
  split; [by apply shape_transition|].
  split; [by apply shape_transition|].
  intros i j a b Ha Hb. rewrite !cell_transition, Ha, Hb. simpl.
  eexists _, _. split; [done|]. split; [done|].
  rewrite !andb_true_iff, !Z.eqb_eq. repeat split; try tauto. lia.
Qed.

Lemma transition_marking_witness :
  exists gains losses : mask,
    gains_of [[0; 1]; [1; 0]] [[1; 1]; [0; 0]] = Ok gains /\
    losses_of [[0; 1]; [1; 0]] [[1; 1]; [0; 0]] = Ok losses /\
    cell gains 0 0 = Some true /\ cell losses 1 0 = Some true.
Proof.
  destruct (transition_marking [[0; 1]; [1; 0]] [[1; 1]; [0; 0]])
    as (g & l & Hg & Hl & _); [by repeat constructor | by repeat constructor | done |].
  exists g, l. vm_compute in Hg, Hl.
  injection Hg as <-. injection Hl as <-. done.
Defined.

(** ** Boolean-index assignment *)

Lemma shape_eqb_eq (s t : nat * nat) : shape_eqb s t = true <-> s = t.
Proof.
  destruct s as [a b], t as [c d]. unfold shape_eqb. simpl.
  rewrite andb_true_iff, !Nat.eqb_eq. split; [intros [-> ->]; done | by intros [= -> ->]].
Qed.

Lemma setitem_mask_Ok {A} (a a' : ndarray A) (m : mask) (v : A) :
  setitem_mask a m v = Ok a' <-> shape a = shape m /\ a' = paint a m v.
Proof.
  unfold setitem_mask. destruct (shape_eqb _ _) eqn:E.
  - apply shape_eqb_eq in E. split; [by intros [= <-] | by intros [_ ->]].
  - split; [done|]. intros [Hs _]. apply shape_eqb_eq in Hs. congruence.
Qed.

Lemma cell_paint {A} (a : ndarray A) (m : mask) (v : A) i j :
  cell (paint a m v) i j =
    x ← cell a i j; b ← cell m i j; Some (if b : bool then v else x).
Proof. apply cell_zip_with. Qed.

Lemma shape_paint {A} (a : ndarray A) (m : mask) (v : A) :
  shape a = shape m -> shape (paint a m v) = shape a.
Proof. apply shape_zip_with. Qed.

Lemma rect_paint {A} (a : ndarray A) (m : mask) (v : A) :
  rect a -> rect m -> shape a = shape m -> rect (paint a m v).
Proof. apply rect_zip_with. Qed.

Lemma mask_le_paint (a m : mask) :
  rect a -> rect m -> shape a = shape m -> mask_le a (paint a m true).
Proof.
  intros Ha Hm Hs i j Hij. rewrite cell_paint, Hij. simpl.
  destruct (proj1 (cell_same_shape a m i j Ha Hm Hs)) as [b Hb]; [by eexists|].
  rewrite Hb. simpl. by destruct b.
Qed.

Lemma count_row_nonneg (r : list bool) : 0 <= count_row r.
Proof. unfold count_row. lia. Qed.

Lemma count_row_cons (x : bool) (r : list bool) :
  count_row (x :: r) = (if x then 1 else 0) + count_row r.
Proof.
  unfold count_row. rewrite filter_cons.
  destruct x; case_decide; simpl; (done || lia).
Qed.

Lemma count_row_paint (r s : list bool) :
  length r = length s ->
  count_row r <= count_row (zip_with (fun x (b : bool) => if b then true else x) r s).
Proof.
  revert s. induction r as [|x r IH]; intros [|b s] Hl; simpl in *; try done.
  rewrite !count_row_cons. specialize (IH s ltac:(lia)).
  destruct b, x; lia.
Qed.

Lemma same_shape_rows {A B} (a : ndarray A) (b : ndarray B) :
  rect a -> rect b -> shape a = shape b ->
  Forall2 (fun r s => length r = length s) a b.
Proof.
  intros Ha Hb Hs. unfold shape in Hs. injection Hs as E1 E2.
  apply Forall2_same_length_lookup_2; [done|].
  intros i r s Hr Hs'.
  rewrite (proj1 (Forall_lookup _ _) Ha i r Hr).
  by rewrite (proj1 (Forall_lookup _ _) Hb i s Hs').
Qed.

Lemma sum_paint (a m : mask) :
  rect a -> rect m -> shape a = shape m -> Np.sum a <= Np.sum (paint a m true).
Proof.
  intros Ha Hm Hs. pose proof (same_shape_rows a m Ha Hm Hs) as H.
  clear Ha Hm Hs. unfold paint, Np.sum.
  induction H as [|r s a' m' Hl _ IH]; simpl; [done|].
  pose proof (count_row_paint r s Hl). lia.
Qed.

Lemma sum_nonneg (m : mask) : 0 <= Np.sum m.
Proof. induction m as [|r m IH]; simpl; [done|]. pose proof (count_row_nonneg r). lia. Qed.

Lemma sum_zeros_like {A} (a : ndarray A) : Np.sum (zeros_like a) = 0.
Proof.
  unfold zeros_like, map_cells. induction a as [|r a IH]; [done|].
  rewrite fmap_cons. change (count_row ((fun _ : A => false) <$> r) +
    Np.sum ((fun r : list A => (fun _ : A => false) <$> r) <$> a) = 0).
  rewrite IH. assert (count_row ((fun _ : A => false) <$> r) = 0) as ->; [|done].
  clear IH. induction r as [|x r IHr]; [done|]. rewrite fmap_cons, count_row_cons. lia.
Qed.

Lemma cell_zeros_like {A} (a : ndarray A) i j :
  cell (zeros_like a) i j = (fun _ => false) <$> cell a i j.
Proof. apply cell_map_cells. Qed.

(** ** One iteration of the loop *)

Lemma render_Ok (curr : grid) (cl cg : mask) (rgba : ndarray pixel) :
  render curr cl cg = Ok rgba <->
  shape cg = shape curr /\ shape cl = shape curr /\
  rgba = overlay (length curr) (ncols curr) cl cg.
Proof.
  unfold render, overlay. change (shape curr) with (length curr, ncols curr) at 1.
  cbv beta iota. set (z := zeros _ _ _).
  assert (shape z = shape curr) as Hz by apply shape_zeros.
  split.
  - intros H. destruct (setitem_mask z cg gain_color) as [r1|] eqn:E1; [|done].
    simpl in H. apply setitem_mask_Ok in E1 as [S1 ->].
    apply setitem_mask_Ok in H as [S2 ->].
    rewrite shape_paint in S2 by done. split_and!; congruence.
  - intros (S1 & S2 & ->).
    assert (setitem_mask z cg gain_color = Ok (paint z cg gain_color)) as ->
      by (apply setitem_mask_Ok; split; congruence).
    simpl. apply setitem_mask_Ok. split; [|done].
    rewrite shape_paint; congruence.
Qed.

Lemma update_masks_first (curr : grid) :
  update_masks init_state curr = Ok (zeros_like curr, zeros_like curr).
Proof. done. Qed.

Lemma render_zeros_like (curr : grid) :
  render curr (zeros_like curr) (zeros_like curr) =
    Ok (overlay (length curr) (ncols curr) (zeros_like curr) (zeros_like curr)).
Proof. apply render_Ok. unfold zeros_like. by rewrite !shape_map_cells. Qed.

(** What a successful iteration did, when the state and the grid are
    rectangular arrays: a later year has the shape of the previous one. *)
Lemma step_inv (st : loop_state) (curr : grid) (cl cg : mask) rgba :
  wf_state st -> rect curr ->
  update_masks st curr = Ok (cl, cg) -> render curr cl cg = Ok rgba ->
  wf_state (LoopState (Some (cl, cg)) (Some curr)) /\
  rgba = overlay (length curr) (ncols curr) cl cg /\
  match cumulative st, previous_arr st with
  | Some (cl0, cg0), Some prev =>
      shape curr = shape prev /\
      cg = paint cg0 (gained prev curr) true /\
      cl = paint cl0 (lost prev curr) true
  | _, _ => cl = zeros_like curr /\ cg = zeros_like curr
  end.
Proof.
  intros Hwf Hc Hu Hr. apply render_Ok in Hr as (Sg & Sl & ->).
  destruct st as [[[cl0 cg0]|] [prev|]]; simpl in *; try done.
  - destruct Hwf as (Rl & Rg & Rp & Sl0 & Sg0).
    unfold update_masks in Hu. simpl in Hu.
    destruct (gains_of prev curr) as [g|] eqn:Eg; [|done]. simpl in Hu.
    destruct (losses_of prev curr) as [l|] eqn:El; [|done]. simpl in Hu.
    destruct (setitem_mask cg0 g true) as [cg'|] eqn:E1; [|done]. simpl in Hu.
    destruct (setitem_mask cl0 l true) as [cl'|] eqn:E2; [|done]. simpl in Hu.
    injection Hu as <- <-.
    apply setitem_mask_Ok in E1 as [S1 ->]. apply setitem_mask_Ok in E2 as [S2 ->].
    rewrite shape_paint in Sg, Sl by done.
    assert (shape prev = shape curr) as Hs by congruence.
    rewrite gains_of_same_shape in Eg by done. injection Eg as <-.
    rewrite losses_of_same_shape in El by done. injection El as <-.
    split; [|done]. unfold wf_state. simpl.
    split_and!; try (apply rect_paint; try done; by apply rect_transition);
      try done; rewrite shape_paint by done; congruence.
  - injection Hu as <- <-. split; [|done]. unfold wf_state. simpl.
    unfold zeros_like. split_and!; try by apply rect_map_cells. all: done.
Qed.

Section LoopFacts.
Variable ttflist : list string.
Variable output_dir : string.
Variable year_arrays : gmap string grid.

Local Abbreviation body := (loop_body ttflist output_dir year_arrays).
Local Abbreviation loop := (run_loop ttflist output_dir year_arrays).

Lemma choose_font_eq :
  choose_font ttflist = (font_events ttflist, Ok (font_family ttflist)).
Proof. unfold choose_font, font_events, font_family. by case_decide. Qed.

Lemma loop_body_Ok st y t st' :
  body st y = (t, Ok st') <->
  exists curr cl cg rgba,
    year_arrays !! y = Some curr /\
    update_masks st curr = Ok (cl, cg) /\
    render curr cl cg = Ok rgba /\
    t = year_events ttflist output_dir y rgba cl cg /\
    st' = LoopState (Some (cl, cg)) (Some curr).
Proof.
  unfold loop_body, getitem, year_events, year_figure.
  rewrite choose_font_eq.
  destruct (year_arrays !! y) as [curr|] eqn:Ey; simpl.
  2: { split; [done | by intros (? & ? & ? & ? & ? & _)]. }
  destruct (update_masks st curr) as [[cl cg]|e] eqn:Eu; simpl.
  2: { split; [done | intros (? & ? & ? & ? & [= <-] & ? & _); congruence]. }
  destruct (render curr cl cg) as [rgba|e] eqn:Er; simpl.
  2: { split; [done | intros (? & ? & ? & ? & [= <-] & ? & ? & _); congruence]. }
  split.
  - intros [= <- <-]. by eexists _, _, _, _.
  - intros (? & ? & ? & ? & [= <-] & Hu & Hr & -> & ->).
    rewrite Eu in Hu. injection Hu as <- <-. rewrite Er in Hr. by injection Hr as <-.
Qed.

Lemma run_loop_cons y years st :
  loop (y :: years) st =
    match body st y with
    | (t, Ok st') => let '(t', r) := loop years st' in ((t ++ t')%list, r)
    | (t, Raise e) => (t, Raise e)
    end.
Proof. done. Qed.

Lemma run_loop_app ys1 ys2 st :
  loop (ys1 ++ ys2) st =
    match loop ys1 st with
    | (t, Ok st') => let '(t', r) := loop ys2 st' in ((t ++ t')%list, r)
    | (t, Raise e) => (t, Raise e)
    end.
Proof.
  revert st. induction ys1 as [|y ys1 IH]; intros st.
  - simpl. by destruct (loop ys2 st).
  - rewrite <- app_comm_cons, !run_loop_cons.
    destruct (body st y) as [t [st1|e]]; [|done].
    rewrite IH. destruct (loop ys1 st1) as [t1 [st2|e]]; [|done].
    destruct (loop ys2 st2) as [t2 r]. by rewrite app_assoc.
Qed.

Lemma grows_refl c : grows c c.
Proof. unfold grows, mask_le. split_and!; (done || lia). Qed.

Lemma grows_trans c1 c2 c3 : grows c1 c2 -> grows c2 c3 -> grows c1 c3.
Proof.
  unfold grows, mask_le. intros (A1 & A2 & A3 & A4) (B1 & B2 & B3 & B4).
  split_and!; (eauto || lia).
Qed.

(** one successful iteration keeps the state well formed, and masks that
    exist before it only grow *)
Lemma loop_body_grows st y t st' :
  wf_arrays year_arrays -> wf_state st -> body st y = (t, Ok st') ->
  wf_state st' /\
  exists c', cumulative st' = Some c' /\
    forall c, cumulative st = Some c -> grows c c'.
Proof.
  intros Hya Hwf H. apply loop_body_Ok in H as (curr & cl & cg & rgba & Hy & Hu & Hr & -> & ->).
  destruct (step_inv st curr cl cg rgba Hwf (Hya _ _ Hy) Hu Hr) as (Hwf' & _ & Hst).
  split; [done|]. exists (cl, cg). split; [done|]. intros c Hc.
  destruct st as [[[cl0 cg0]|] [prev|]]; simpl in *; try done.
  injection Hc as <-. destruct Hwf as (Rl & Rg & Rp & Sl & Sg).
  destruct Hst as (Hs & -> & ->).
  assert (rect curr) as Rc by eauto.
  unfold grows; simpl. unfold gained, lost.
  split_and!; (apply mask_le_paint || apply sum_paint);
    try done; try (by apply rect_transition);
    rewrite shape_transition; done.
Qed.

Lemma run_loop_grows years st t st' :
  wf_arrays year_arrays -> wf_state st -> loop years st = (t, Ok st') ->
  wf_state st' /\
  forall c, cumulative st = Some c ->
    exists c', cumulative st' = Some c' /\ grows c c'.
Proof.
  intros Hya. revert st t. induction years as [|y years IH]; intros st t Hwf H.
  - injection H as <- <-. split; [done|]. intros c Hc. exists c. split; [done | apply grows_refl].
  - rewrite run_loop_cons in H.
    destruct (body st y) as [t1 [st1|e]] eqn:E1; [|done].
    destruct (loop years st1) as [t2 r] eqn:E2. injection H as <- ->.
    destruct (loop_body_grows _ _ _ _ Hya Hwf E1) as (Hwf1 & c1 & Hc1 & Hg1).
    destruct (IH _ _ Hwf1 E2) as (Hwf' & Hg2). split; [done|].
    intros c Hc. destruct (Hg2 c1 Hc1) as (c' & Hc' & Hg').
    exists c'. split; [done|]. eapply grows_trans; eauto.
Qed.

End LoopFacts.

(** C2: in a run of the loop over rectangular arrays, take the masks after
    any number of years and the masks after any further years: every cell
    true in the earlier gain (loss) mask is true in the later one, and the
    number of true cells of either mask has not decreased. *)
Theorem cumulative_masks_monotone ttflist output_dir year_arrays
    (ys1 ys2 : list string) t1 t2 st1 st2 (cl1 cg1 : mask) :
  wf_arrays year_arrays ->
  run_loop ttflist output_dir year_arrays ys1 init_state = (t1, Ok st1) ->
  run_loop ttflist output_dir year_arrays (ys1 ++ ys2) init_state = (t2, Ok st2) ->
  cumulative st1 = Some (cl1, cg1) ->
  exists cl2 cg2 : mask,
    cumulative st2 = Some (cl2, cg2) /\
    mask_le cg1 cg2 /\ mask_le cl1 cl2 /\
    Np.sum cg1 <= Np.sum cg2 /\ Np.sum cl1 <= Np.sum cl2.
Proof.
  intros Hya H1 H2 Hc. rewrite run_loop_app, H1 in H2.
  destruct (run_loop _ _ _ ys2 st1) as [t' r] eqn:E. injection H2 as _ ->.
  destruct (run_loop_grows _ _ _ _ init_state _ _ Hya I H1) as (Hwf1 & _).
  destruct (run_loop_grows _ _ _ _ _ _ _ Hya Hwf1 E) as (_ & Hg).
  destruct (Hg _ Hc) as ([cl2 cg2] & Hc2 & G1 & G2 & G3 & G4).
  exists cl2, cg2. simpl in *. done.
Qed.

Lemma wf_arrays_scenario : wf_arrays Scenario.year_arrays.
Proof.
  intros y arr. unfold Scenario.year_arrays.
  rewrite !lookup_insert. repeat case_decide; try (intros [= <-]; by repeat constructor).
Qed.

Lemma cumulative_masks_monotone_witness :
  exists cl2 cg2 : mask,
    cumulative
      (LoopState (Some ([[false; false]; [false; false]], [[true; false]; [true; true]]))
                 (Some Scenario.grid2002)) = Some (cl2, cg2) /\
    mask_le [[true; false]; [false; false]] cg2 /\
    mask_le [[false; false]; [false; false]] cl2 /\
    Np.sum [[true; false]; [false; false]] <= Np.sum cg2 /\
    Np.sum [[false; false]; [false; false]] <= Np.sum cl2.
Proof.
  eapply (cumulative_masks_monotone Scenario.ttflist "out" Scenario.year_arrays
            ["2000"; "2001"] ["2002"]).
  - exact wf_arrays_scenario.
  - vm_compute. reflexivity.
  - vm_compute. reflexivity.
  - reflexivity.
Defined.

(** C8: on the three-year data set, the years come out sorted, each year's
    mosaic is its binary grid, and the loop ends the year 2000 with no true
    cell in either mask, the year 2001 with 1 gained cell, the year 2002
    with 3 gained cells, the loss mask staying empty throughout. *)
Theorem three_year_scenario :
  list_years Scenario.listdir Scenario.isdir "data" = Ok Scenario.years /\
  (load_years unit string Scenario.listdir Scenario.rasterio_open Scenario.merge
     "data" Scenario.years ∅).2 = Ok Scenario.year_arrays /\
  Scenario.year_arrays !! "2000" = Some [[0; 0]; [0; 0]] /\
  Scenario.year_arrays !! "2001" = Some [[1; 0]; [0; 0]] /\
  Scenario.year_arrays !! "2002" = Some [[1; 0]; [1; 1]] /\
  final_counts (Scenario.run 1) = Some (0, 0) /\
  final_counts (Scenario.run 2) = Some (1, 0) /\
  final_counts (Scenario.run 3) = Some (3, 0) /\
  is_ok (main unit string Scenario.listdir Scenario.isdir Scenario.rasterio_open
           Scenario.merge Scenario.ttflist "data" "out").2 = true.
Proof. split_and!; vm_compute; reflexivity. Qed.

(** ** The tile mosaicker *)

Section MosaicFacts.
Variable transform : Type.
Variable dataset : Type.
Variable listdir : string -> result (list string).
Variable rasterio_open : string -> result dataset.
Variable merge : list dataset -> result (list grid * transform).

Local Abbreviation mosaic := (mosaic_year_tiles transform dataset listdir rasterio_open merge).
Local Abbreviation tif_files := (glob_tif listdir).



Lemma mosaic_cons year_path f fs :
  tif_files year_path = f :: fs ->
  mosaic year_path =
    (srcs ← map_result rasterio_open (f :: fs);
     '(mosaic_arr, mosaic_transform) ← merge srcs;
     mosaic_arr ← first_band mosaic_arr;
     mret (where_gt0 mosaic_arr, mosaic_transform)).
Proof. unfold mosaic_year_tiles. by intros ->. Qed.


Lemma cell_where_gt0 (band : grid) i j :
  cell (where_gt0 band) i j = threshold <$> cell band i j.
Proof. apply cell_map_cells. Qed.



End MosaicFacts.




(** ** Areas and the overlay text *)

Lemma area_km2_zeros_like {A} (a : ndarray A) : area_km2 (zeros_like a) = 0%float.
Proof. unfold area_km2. rewrite sum_zeros_like. vm_compute. reflexivity. Qed.

Lemma format_2f_zero : Fmt.format_2f 0%float = "0.00".
Proof. vm_compute. reflexivity. Qed.




(** The products are binary64 products: 100 true cells give
    0.034999999999999996, printed 0.03, and 1000 give 0.35. *)
Lemma area_km2_examples :
  Fmt.format_2f (area_km2 [replicate 100 true]) = "0.03" /\
  Fmt.format_2f (area_km2 (replicate 10 (replicate 100 true))) = "0.35" /\
  Fmt.format_2f (area_km2 (replicate 200 (replicate 500 true))) = "35.00".
Proof. split_and!; vm_compute; reflexivity. Qed.

Lemma title_text_zero (y : string) :
  title_text y 0%float 0%float =
    "Year: " +:+ y +:+ newline +:+ "Cumulative Gains: 0.00 km²" +:+ newline +:+
    "Cumulative Losses: 0.00 km²".
Proof. unfold title_text. rewrite format_2f_zero. reflexivity. Qed.

Lemma cell_overlay (h w : nat) (cl cg : mask) i j (l g : bool) :
  (i < h)%nat -> (j < w)%nat ->
  cell cl i j = Some l -> cell cg i j = Some g ->
  cell (overlay h w cl cg) i j =
    Some (if l then loss_color else if g then gain_color else transparent).
Proof.
  intros Hi Hj Hl Hg. unfold overlay.
  rewrite !cell_paint, cell_zeros, Hl, Hg by done. simpl. by destruct l, g.
Qed.

Lemma frames_year_events ttflist output_dir y rgba cl cg :
  frames (year_events ttflist output_dir y rgba cl cg) =
    [year_figure ttflist y rgba cl cg].
Proof. unfold year_events, font_events, frames. by case_decide. Qed.



(** ** Rendering *)

Section RenderFacts.
Variable ttflist : list string.
Variable output_dir : string.
Variable year_arrays : gmap string grid.
Hypothesis arrays_rect : wf_arrays year_arrays.

Local Abbreviation body := (loop_body ttflist output_dir year_arrays).
Local Abbreviation loop := (run_loop ttflist output_dir year_arrays).

Lemma frames_app (t1 t2 : list event) : frames (t1 ++ t2) = (frames t1 ++ frames t2)%list.
Proof. apply omap_app. Qed.

(** the pixels of the figure of a successful iteration *)
Lemma loop_body_pixels st y t st' :
  wf_state st -> body st y = (t, Ok st') ->
  exists (cl cg : mask) (fig : figure) (curr : grid),
    st' = LoopState (Some (cl, cg)) (Some curr) /\ wf_state st' /\
    frames t = [fig] /\ year_arrays !! y = Some curr /\
    shape (fig_rgba fig) = shape curr /\
    forall i j, (i < length curr)%nat -> (j < ncols curr)%nat ->
      exists l g : bool,
        cell cl i j = Some l /\ cell cg i j = Some g /\
        cell (fig_rgba fig) i j =
          Some (if l then loss_color else if g then gain_color else transparent).
Proof.
  intros Hwf H.
  apply loop_body_Ok in H as (curr & cl & cg & rgba & Hy & Hu & Hr & -> & ->).
  destruct (step_inv st curr cl cg rgba Hwf (arrays_rect _ _ Hy) Hu Hr) as (Hwf' & -> & _).
  exists cl, cg, (year_figure ttflist y (overlay (length curr) (ncols curr) cl cg) cl cg), curr.
  split; [done|]. split; [done|]. split; [apply frames_year_events|]. split; [done|].
  destruct Hwf' as (Rl & Rg & Rc & Sl & Sg). simpl. split.
  - unfold overlay.
    assert (shape (zeros (length curr) (ncols curr) transparent) = shape curr) as Hz
      by apply shape_zeros.
    assert (shape (paint (zeros (length curr) (ncols curr) transparent) cg gain_color)
            = shape curr) as Hp by (rewrite shape_paint; congruence).
    rewrite shape_paint; congruence.
  - intros i j Hi Hj.
    destruct (proj2 (cell_is_Some cl i j Rl)) as [l Hl].
    { unfold shape in Sl. injection Sl as -> ->. done. }
    destruct (proj2 (cell_is_Some cg i j Rg)) as [g Hg].
    { unfold shape in Sg. injection Sg as -> ->. done. }
    exists l, g. split; [done|]. split; [done|]. by apply cell_overlay.
Qed.

Lemma loop_frames_length years st t st' :
  loop years st = (t, Ok st') -> length (frames t) = length years.
Proof.
  revert st t. induction years as [|y years IH]; intros st t H.
  - by injection H as <- <-.
  - rewrite run_loop_cons in H.
    destruct (body st y) as [t1 [st1|e]] eqn:E1; [|done].
    destruct (loop years st1) as [t2 r] eqn:E2. injection H as <- ->.
    apply loop_body_Ok in E1 as (curr & cl & cg & rgba & _ & _ & _ & -> & _).
    rewrite frames_app, frames_year_events. simpl. f_equal. eauto.
Qed.

(** once a cell is set in the loss mask, every later figure shows it in
    the loss colour *)
Lemma loss_stays_painted years st t st' (cl cg : mask) i j :
  wf_state st -> cumulative st = Some (cl, cg) -> cell cl i j = Some true ->
  loop years st = (t, Ok st') ->
  Forall (fun fig => cell (fig_rgba fig) i j = Some loss_color) (frames t).
Proof.
  revert st t cl cg. induction years as [|y years IH]; intros st t cl cg Hwf Hc Hij H.
  - injection H as <- <-. constructor.
  - rewrite run_loop_cons in H.
    destruct (body st y) as [t1 [st1|e]] eqn:E1; [|done].
    destruct (loop years st1) as [t2 r] eqn:E2. injection H as <- ->.
    destruct (loop_body_grows _ _ _ _ _ _ _ arrays_rect Hwf E1) as (_ & c1 & Hc1 & Hg).
    specialize (Hg _ Hc) as (Hle & _).
    destruct (loop_body_pixels _ _ _ _ Hwf E1)
      as (cl1 & cg1 & fig & curr & -> & Hwf1 & Hf & _ & _ & Hpix).
    simpl in Hc1. injection Hc1 as <-. simpl in Hle.
    pose proof (Hle i j Hij) as Hij1.
    rewrite frames_app, Hf. constructor; [|by eapply (IH _ _ cl1 cg1)].
    destruct Hwf1 as (Rl & _ & _ & Sl & _). simpl in *.
    destruct (proj1 (cell_is_Some cl1 i j Rl)) as [Hi Hj]; [by eexists|].
    unfold shape in Sl. injection Sl as El Ec. rewrite El in Hi. rewrite Ec in Hj.
    destruct (Hpix i j Hi Hj) as (l & g & Hl & _ & Hp).
    rewrite Hij1 in Hl. injection Hl as <-. done.
Qed.

Lemma loop_snoc_previous years y st t st' :
  loop (years ++ [y]) st = (t, Ok st') ->
  exists t0 st0 t1,
    loop years st = (t0, Ok st0) /\ body st0 y = (t1, Ok st') /\ t = (t0 ++ t1)%list.
Proof.
  rewrite run_loop_app. destruct (loop years st) as [t0 [st0|e]]; [|done].
  rewrite run_loop_cons. destruct (body st0 y) as [t1 [st1|e]] eqn:E1; [|done].
  simpl. rewrite app_nil_r. intros [= <- <-]. by exists t0, st0, t1.
Qed.

End RenderFacts.

Lemma cell_lost (prev curr : grid) i j :
  cell prev i j = Some 1 -> cell curr i j = Some 0 ->
  cell (lost prev curr) i j = Some true.
Proof. intros Hp Hc. unfold lost. by rewrite cell_transition, Hp, Hc. Qed.

(** C6: in a run over rectangular arrays, (1) the figure of every year
    has the shape of that year's grid and shows each cell in the loss
    colour when the cell is in the loss mask (also when it is in the gain
    mask as well), in the gain colour when it is in the gain mask only, and
    transparent when it is in neither; both colours have alpha 255.
    (2) A cell present in year N (as after a gain in year N) and absent in
    year N+1 is shown in the loss colour in the figure of year N+1 and in
    every later figure, one figure being saved per year. *)
Theorem loss_painted_over_gain ttflist output_dir (year_arrays : gmap string grid) :
  wf_arrays year_arrays ->
  (forall ys y t st',
     run_loop ttflist output_dir year_arrays (ys ++ [y]) init_state = (t, Ok st') ->
     exists (cl cg : mask) (fig : figure) (curr : grid),
       cumulative st' = Some (cl, cg) /\ last (frames t) = Some fig /\
       year_arrays !! y = Some curr /\ shape (fig_rgba fig) = shape curr /\
       forall i j, (i < length curr)%nat -> (j < ncols curr)%nat ->
         exists l g : bool,
           cell cl i j = Some l /\ cell cg i j = Some g /\
           cell (fig_rgba fig) i j =
             Some (if l then (255, 0, 0, 255)
                   else if g then (255, 255, 0, 255) else (0, 0, 0, 0))) /\
  (forall ys1 yN yN1 ys2 (aN aN1 : grid) t st i j,
     run_loop ttflist output_dir year_arrays (ys1 ++ [yN; yN1] ++ ys2) init_state
       = (t, Ok st) ->
     year_arrays !! yN = Some aN -> year_arrays !! yN1 = Some aN1 ->
     cell aN i j = Some 1 -> cell aN1 i j = Some 0 ->
     length (frames t) = (length ys1 + 2 + length ys2)%nat /\
     forall k fig, frames t !! (length ys1 + 1 + k)%nat = Some fig ->
       cell (fig_rgba fig) i j = Some (255, 0, 0, 255)).
Proof.
  intros Hya. split.
  - intros ys y t st' H.
    apply loop_snoc_previous in H as (t0 & st0 & t1 & H0 & H1 & ->).
    destruct (run_loop_grows _ _ _ _ init_state _ _ Hya I H0) as (Hwf0 & _).
    destruct (loop_body_pixels _ _ _ Hya _ _ _ _ Hwf0 H1)
      as (cl & cg & fig & curr & -> & _ & Hf & Hy & Hs & Hpix).
    exists cl, cg, fig, curr. rewrite frames_app, Hf, last_snoc. done.
  - intros ys1 yN yN1 ys2 aN aN1 t st i j H HyN HyN1 HaN HaN1.
    split.
    { apply loop_frames_length in H. rewrite H, !length_app. simpl. lia. }
    change (ys1 ++ [yN; yN1] ++ ys2)%list with (ys1 ++ [yN] ++ yN1 :: ys2)%list in H.
    rewrite app_assoc, run_loop_app in H.
    destruct (run_loop _ _ _ (ys1 ++ [yN]) init_state) as [tA [stA|e]] eqn:EA; [|done].
    pose proof (loop_frames_length _ _ _ _ _ _ _ EA) as HlenA.
    destruct (run_loop_grows _ _ _ _ init_state _ _ Hya I EA) as (HwfA & _).
    apply loop_snoc_previous in EA as (t0 & st0 & t1 & _ & EN & _).
    apply loop_body_Ok in EN as (aN' & clA & cgA & rgbaA & HyN' & _ & _ & _ & ->).
    rewrite HyN in HyN'. injection HyN' as <-.
    rewrite run_loop_cons in H.
    destruct (loop_body _ _ _ _ yN1) as [t2 [stB|e]] eqn:EB; [|done].
    destruct (run_loop _ _ _ ys2 stB) as [t3 r] eqn:EC. injection H as <- ->.
    destruct (loop_body_pixels _ _ _ Hya _ _ _ _ HwfA EB)
      as (cl & cg & fig1 & curr & -> & HwfB & Hf1 & Hy1 & _ & Hpix).
    rewrite HyN1 in Hy1. injection Hy1 as <-.
    apply loop_body_Ok in EB as (aN1' & cl' & cg' & rgba & Hy1 & Hu & Hr & _ & HstB).
    rewrite HyN1 in Hy1. injection Hy1 as <-. injection HstB as <- <-.
    destruct (step_inv _ _ _ _ _ HwfA (Hya _ _ HyN1) Hu Hr) as (_ & _ & Hs & _ & Hcl).
    simpl in Hs, Hcl.
    destruct HwfA as (RlA & _ & RN & SlA & _). simpl in *.
    assert (cell cl i j = Some true) as Hloss.
    { rewrite Hcl, cell_paint.
      destruct (proj2 (cell_same_shape clA aN i j RlA RN SlA)) as [x Hx]; [by eexists|].
      rewrite Hx. simpl. by rewrite (cell_lost aN aN1 i j HaN HaN1). }
    assert (Forall (fun fig => cell (fig_rgba fig) i j = Some loss_color)
              (fig1 :: frames t3)) as Hall.
    { constructor.
      - destruct HwfB as (Rl & _ & _ & Sl & _). simpl in *.
        destruct (proj1 (cell_is_Some cl i j Rl)) as [Hi Hj]; [by eexists|].
        unfold shape in Sl. injection Sl as El Ec. rewrite El in Hi. rewrite Ec in Hj.
        destruct (Hpix i j Hi Hj) as (l & g & Hl & _ & Hp).
        rewrite Hloss in Hl. injection Hl as <-. done.
      - eapply (loss_stays_painted _ _ _ Hya ys2 _ t3 st cl cg); try done. }
    intros k fig Hk. rewrite !frames_app, Hf1 in Hk.
    rewrite lookup_app_r in Hk by (rewrite HlenA, length_app; simpl; lia).
    rewrite HlenA, length_app in Hk. simpl in Hk.
    replace (length ys1 + 1 + k - (length ys1 + 1))%nat with k in Hk by lia.
    by apply (proj1 (Forall_lookup _ _) Hall k fig).
Qed.

Lemma wf_arrays_flicker : wf_arrays Scenario.flicker_arrays.
Proof.
  intros y arr. unfold Scenario.flicker_arrays.
  rewrite !lookup_insert. repeat case_decide; try (intros [= <-]; by repeat constructor).
Qed.

Lemma loss_painted_over_gain_witness :
  let t := (run_loop Scenario.ttflist "out" Scenario.flicker_arrays
              ["2000"; "2001"; "2002"; "2003"] init_state).1 in
  length (frames t) = 4%nat /\
  (exists fig, frames t !! 1%nat = Some fig /\ cell (fig_rgba fig) 0 0 = Some (255, 255, 0, 255)) /\
  (exists fig, frames t !! 2%nat = Some fig /\ cell (fig_rgba fig) 0 0 = Some (255, 0, 0, 255)) /\
  (exists fig, frames t !! 3%nat = Some fig /\ cell (fig_rgba fig) 0 0 = Some (255, 0, 0, 255)).
Proof.
  intros t.
  destruct (loss_painted_over_gain Scenario.ttflist "out" Scenario.flicker_arrays
              wf_arrays_flicker) as [_ H].
  destruct (H ["2000"] "2001" "2002" ["2003"] [[1]] [[0]] t
              (LoopState (Some ([[true]], [[true]])) (Some [[0]])) 0%nat 0%nat)
    as [Hlen Hk]; [vm_compute; reflexivity | reflexivity.. |].
  split; [exact Hlen|]. split.
  - eexists. split; vm_compute; reflexivity.
  - split.
    + destruct (frames t !! 2%nat) as [fig|] eqn:E; [|vm_compute in E; discriminate].
      exists fig. split; [reflexivity|]. exact (Hk 0%nat fig E).
    + destruct (frames t !! 3%nat) as [fig|] eqn:E; [|vm_compute in E; discriminate].
      exists fig. split; [reflexivity|]. exact (Hk 1%nat fig E).
Defined.

(** ** The year sequence *)

Lemma string_compare_le_trans (s1 s2 s3 : string) :
  String.compare s1 s2 <> Gt -> String.compare s2 s3 <> Gt ->
  String.compare s1 s3 <> Gt.
Proof.
  revert s2 s3. induction s1 as [|a s1 IH]; intros [|b s2] [|d s3]; simpl; try done.
  unfold Ascii.compare.
  destruct (N.compare_spec (N_of_ascii a) (N_of_ascii b)) as [E1|E1|E1]; try done;
    destruct (N.compare_spec (N_of_ascii b) (N_of_ascii d)) as [E2|E2|E2]; try done;
    destruct (N.compare_spec (N_of_ascii a) (N_of_ascii d)) as [E3|E3|E3];
    try done; try lia.
  apply IH.
Qed.

#[global] Instance str_le_total : Total str_le.
Proof. intros a b. apply String.leb_total. Qed.

#[global] Instance str_le_trans : Transitive str_le.
Proof.
  intros a b c. unfold str_le, String.leb. intros H1 H2.
  pose proof (string_compare_le_trans a b c) as H.
  destruct (String.compare a b), (String.compare b c), (String.compare a c);
    try done; exfalso; by apply H.
Qed.

#[global] Instance str_le_antisym : AntiSymm eq str_le.
Proof. intros a b. apply String.leb_antisym. Qed.

(** The order is lexicographic: the first differing byte decides, and a
    proper prefix comes first. *)
Lemma str_le_cons (a b : ascii) (s t : string) :
  str_le (String a s) (String b t) <->
  (N_of_ascii a < N_of_ascii b)%N \/ (a = b /\ str_le s t).
Proof.
  unfold str_le, String.leb. simpl. unfold Ascii.compare.
  destruct (N.compare_spec (N_of_ascii a) (N_of_ascii b)) as [E|E|E].
  - assert (a = b) as -> by (rewrite <- (ascii_N_embedding a), <- (ascii_N_embedding b); by f_equal).
    split; [by right | intros [?|[_ ?]]; [lia | done]].
  - split; [by left | done].
  - split; [done|]. intros [?|[-> _]]; lia.
Qed.

Lemma str_le_nil (s : string) : str_le "" s.
Proof. by destruct s. Qed.

Lemma sorted_Permutation (l : list string) : sorted l ≡ₚ l.
Proof. apply merge_sort_Permutation. Qed.

Lemma sorted_StronglySorted (l : list string) : StronglySorted str_le (sorted l).
Proof. apply StronglySorted_merge_sort; apply _. Qed.

Section MainFacts.
Variable transform : Type.
Variable dataset : Type.
Variable listdir : string -> result (list string).
Variable isdir : string -> bool.
Variable rasterio_open : string -> result dataset.
Variable merge : list dataset -> result (list grid * transform).
Variable ttflist : list string.

Local Abbreviation years_of := (list_years listdir isdir).
Local Abbreviation load := (load_years transform dataset listdir rasterio_open merge).
Local Abbreviation loop := (run_loop ttflist).
Local Abbreviation script := (main transform dataset listdir isdir rasterio_open merge ttflist).

Lemma list_years_Ok data_dir years :
  years_of data_dir = Ok years <->
  exists names, listdir data_dir = Ok names /\
    years = sorted (filter (fun d => isdir (Path.join data_dir d) = true) names).
Proof.
  unfold list_years. destruct (listdir data_dir) as [names|e]; simpl.
  - split; [intros [= <-]; by exists names | by intros (? & [= <-] & ->)].
  - split; [done | by intros (? & ? & _)].
Qed.

(** loading calls the mosaicker once per year, in order *)
Lemma load_years_Ok data_dir years ya t ya' :
  load data_dir years ya = (t, Ok ya') ->
  t = (fun y => CallMosaic (Path.join data_dir y)) <$> years.
Proof.
  revert ya t. induction years as [|y years IH]; intros ya t H.
  - by injection H as <- _.
  - simpl in H. unfold mbind, M_bind, emit, lift in H. simpl in H.
    destruct (mosaic_year_tiles _ _ _ _ _ _) as [[arr tr]|e]; [|done].
    destruct (load data_dir years (<[y:=arr]> ya)) as [t' r] eqn:E.
    injection H as <- ->. simpl. f_equal. by eapply IH.
Qed.

Lemma load_years_lookup data_dir years ya t ya' :
  load data_dir years ya = (t, Ok ya') ->
  forall y, y ∈ years \/ is_Some (ya !! y) -> is_Some (ya' !! y).
Proof.
  revert ya t. induction years as [|y0 years IH]; intros ya t H y Hy.
  - injection H as _ <-. destruct Hy as [Hy|Hy]; [by apply elem_of_nil in Hy | done].
  - simpl in H. unfold mbind, M_bind, emit, lift in H. simpl in H.
    destruct (mosaic_year_tiles _ _ _ _ _ _) as [[arr tr]|e]; [|done].
    destruct (load data_dir years (<[y0:=arr]> ya)) as [t' r] eqn:E.
    injection H as _ ->. apply (IH _ _ E).
    destruct Hy as [Hy|Hy].
    + apply elem_of_cons in Hy as [->|Hy]; [right | by left].
      rewrite lookup_insert_eq. by eexists.
    + right. apply lookup_insert_is_Some. destruct (decide (y0 = y)); [by left | by right].
Qed.

(** C4: once the mosaics of a non-empty year sequence are loaded, the
    first year has a mosaic and the loop processes it from the initial
    state without any comparison: both cumulative masks are all false (no
    cell true, zero true cells), both areas are exactly 0.0, the figure
    saved for that year is fully transparent and its text reports 0.00 km²
    twice; the loop then goes on with these masks. *)
Theorem first_year_masks_empty data_dir output_dir (y : string) (years : list string)
    (t0 : list event) (year_arrays : gmap string grid) :
  load data_dir (y :: years) ∅ = (t0, Ok year_arrays) ->
  exists curr : grid,
  year_arrays !! y = Some curr /\
  let cl := zeros_like curr in
  let cg := zeros_like curr in
  let rgba := overlay (length curr) (ncols curr) cl cg in
  let fig := Figure rgba
    ("Year: " +:+ y +:+ newline +:+ "Cumulative Gains: 0.00 km²" +:+ newline +:+
     "Cumulative Losses: 0.00 km²") 12 (font_family ttflist) in
  let first := (font_events ttflist ++
                [Savefig (Path.join output_dir (y +:+ ".png")) fig;
                 Print ("Saved " +:+ Path.join output_dir (y +:+ ".png"))])%list in
  update_masks init_state curr = Ok (cl, cg) /\
  (forall i j, cell cl i j <> Some true /\ cell cg i j <> Some true) /\
  Np.sum cg = 0 /\ Np.sum cl = 0 /\
  area_km2 cg = 0%float /\ area_km2 cl = 0%float /\
  (forall i j p, cell rgba i j = Some p -> p = transparent) /\
  loop_body ttflist output_dir year_arrays init_state y =
    (first, Ok (LoopState (Some (cl, cg)) (Some curr))) /\
  run_loop ttflist output_dir year_arrays (y :: years) init_state =
    (let '(t, r) := run_loop ttflist output_dir year_arrays years
                      (LoopState (Some (cl, cg)) (Some curr)) in
     ((first ++ t)%list, r)).
Proof.
  intros Hload.
  destruct (load_years_lookup _ _ _ _ _ Hload y) as [curr Hy]; [left; apply list_elem_of_here|].
  exists curr. split; [done|]. intros cl cg rgba fig first.
  assert (forall i j, cell cl i j <> Some true) as Hfalse.
  { intros i j. unfold cl. rewrite cell_zeros_like. by destruct (cell curr i j). }
  assert (loop_body ttflist output_dir year_arrays init_state y =
            (first, Ok (LoopState (Some (cl, cg)) (Some curr)))) as Hbody.
  { apply loop_body_Ok. exists curr, cl, cg, rgba.
    split; [done|]. split; [done|]. split; [apply render_zeros_like|].
    split; [|done]. unfold year_events, year_figure, first, fig, cl, cg.
    by rewrite !area_km2_zeros_like, title_text_zero. }
  split_and!; try done.
  - apply sum_zeros_like.
  - apply sum_zeros_like.
  - apply area_km2_zeros_like.
  - apply area_km2_zeros_like.
  - intros i j p. unfold rgba, overlay. rewrite !cell_paint.
    destruct (cell (zeros _ _ transparent) i j) as [z|] eqn:Ez; [|done].
    assert (z = transparent) as ->.
    { unfold cell, zeros in Ez.
      destruct (replicate (length curr) _ !! i) as [r|] eqn:Er; [|done].
      apply lookup_replicate_1 in Er as [-> _]. simpl in Ez.
      by apply lookup_replicate_1 in Ez as [-> _]. }
    simpl. destruct (cell cg i j) as [[|]|] eqn:Eg; simpl; try done.
    { by destruct (Hfalse i j). }
    destruct (cell cl i j) as [[|]|] eqn:El; simpl; try done.
    { by destruct (Hfalse i j). }
    by intros [= <-].
  - rewrite run_loop_cons, Hbody. done.
Qed.

(** a successful loop saves one figure per year, in order, and nothing else
    but console lines *)
Lemma run_loop_events output_dir ya years st t st' :
  loop output_dir ya years st = (t, Ok st') ->
  saved_paths t = (fun y => Path.join output_dir (y +:+ ".png")) <$> years /\
  mosaic_calls t = [].
Proof.
  revert st t. induction years as [|y years IH]; intros st t H.
  - by injection H as <- _.
  - rewrite run_loop_cons in H.
    destruct (loop_body _ _ _ st y) as [t1 [st1|e]] eqn:E1; [|done].
    destruct (loop output_dir ya years st1) as [t2 r] eqn:E2. injection H as <- ->.
    apply loop_body_Ok in E1 as (curr & cl & cg & rgba & _ & _ & _ & -> & _).
    destruct (IH _ _ E2) as [IH1 IH2].
    unfold saved_paths, mosaic_calls in *. rewrite !omap_app, IH1, IH2.
    unfold year_events, font_events. by case_decide.
Qed.

Lemma mosaic_calls_load data_dir (l : list string) :
  omap (fun e => match e with CallMosaic p => Some p | _ => None end)
    ((fun y => CallMosaic (Path.join data_dir y)) <$> l) = Path.join data_dir <$> l.
Proof. induction l as [|y l IH]; [done|]. simpl. f_equal. exact IH. Qed.

Lemma saved_paths_load data_dir (l : list string) :
  omap (fun e => match e with Savefig path _ => Some path | _ => None end)
    ((fun y => CallMosaic (Path.join data_dir y)) <$> l) = [].
Proof. induction l as [|y l IH]; [done|]. simpl. exact IH. Qed.

Lemma main_Ok data_dir output_dir t :
  script data_dir output_dir = (t, Ok tt) ->
  exists years ya t1 t2 st,
    years_of data_dir = Ok years /\
    load data_dir years ∅ = (t1, Ok ya) /\
    loop output_dir ya years init_state = (t2, Ok st) /\
    t = (Makedirs output_dir :: t1 ++ t2)%list.
Proof.
  unfold main. unfold mbind at 1 2, M_bind, emit, lift. simpl.
  destruct (years_of data_dir) as [years|e]; [|done]. simpl.
  destruct (load data_dir years ∅) as [t1 [ya|e]] eqn:E1; [|done]. simpl.
  destruct (loop output_dir ya years init_state) as [t2 [st|e]] eqn:E2; [|done]. simpl.
  rewrite app_nil_r. intros [= <-]. by exists years, ya, t1, t2, st.
Qed.

(** C10: the years are the entries of the root directory that are
    directories, whatever their names, arranged in increasing
    lexicographic order (so "1000" comes before "999"); when [main]
    returns, it has called the mosaicker on each year directory and saved
    one figure per year, both in that order and, the entry names being
    distinct, once each. *)
Theorem years_sorted_subdirectories data_dir names years :
  listdir data_dir = Ok names ->
  years_of data_dir = Ok years ->
  years ≡ₚ filter (fun d => isdir (Path.join data_dir d) = true) names /\
  (forall d, d ∈ years <-> d ∈ names /\ isdir (Path.join data_dir d) = true) /\
  StronglySorted str_le years /\
  (NoDup names -> NoDup years) /\
  sorted ["999"; "1000"; "2000"] = ["1000"; "2000"; "999"] /\
  forall output_dir t,
    script data_dir output_dir = (t, Ok tt) ->
    mosaic_calls t = Path.join data_dir <$> years /\
    saved_paths t = (fun y => Path.join output_dir (y +:+ ".png")) <$> years.
Proof.
  intros Hl Hy. apply list_years_Ok in Hy as (names' & Hl' & ->).
  rewrite Hl in Hl'. injection Hl' as <-.
  split; [apply sorted_Permutation|].
  split.
  { intros d. rewrite (sorted_Permutation _), list_elem_of_filter. tauto. }
  split; [apply sorted_StronglySorted|].
  split.
  { intros Hnd. rewrite (sorted_Permutation _). by apply NoDup_filter. }
  split; [by vm_compute|].
  intros output_dir t Hmain.
  apply main_Ok in Hmain as (years & ya & t1 & t2 & st & Hy & H1 & H2 & ->).
  apply list_years_Ok in Hy as (names' & Hl' & ->).
  rewrite Hl in Hl'. injection Hl' as <-.
  apply load_years_Ok in H1 as ->.
  apply run_loop_events in H2 as [Hs Hm].
  change (mosaic_calls (Makedirs output_dir :: ?a)) with (mosaic_calls a).
  change (saved_paths (Makedirs output_dir :: ?a)) with (saved_paths a).
  unfold mosaic_calls, saved_paths in Hs, Hm |- *. rewrite !omap_app, Hs, Hm.
  rewrite mosaic_calls_load, saved_paths_load. by rewrite app_nil_r.
Qed.

End MainFacts.

Lemma first_year_masks_empty_witness :
  exists curr : grid,
    Scenario.year_arrays !! "2000" = Some curr /\
    Np.sum (zeros_like curr) = 0 /\
    area_km2 (zeros_like curr) = 0%float /\
    exists t, loop_body Scenario.ttflist "out" Scenario.year_arrays init_state "2000" =
      (t, Ok (LoopState (Some (zeros_like curr, zeros_like curr)) (Some curr))).
Proof.
  destruct (first_year_masks_empty unit string Scenario.listdir Scenario.rasterio_open
              Scenario.merge Scenario.ttflist "data" "out" "2000" ["2001"; "2002"]
              (load_years unit string Scenario.listdir Scenario.rasterio_open
                 Scenario.merge "data" Scenario.years ∅).1
              Scenario.year_arrays)
    as (curr & Hy & _ & _ & H1 & _ & H2 & _ & _ & H3 & _).
  - vm_compute. reflexivity.
  - exists curr. split; [exact Hy|]. split; [exact H1|]. split; [exact H2|].
    eexists. exact H3.
Defined.

Lemma years_sorted_subdirectories_witness :
  Scenario.years ≡ₚ ["2002"; "2000"; "2001"] /\
  StronglySorted str_le Scenario.years /\
  mosaic_calls (main unit string Scenario.listdir Scenario.isdir Scenario.rasterio_open
                  Scenario.merge Scenario.ttflist "data" "out").1
    = ["data/2000"; "data/2001"; "data/2002"] /\
  saved_paths (main unit string Scenario.listdir Scenario.isdir Scenario.rasterio_open
                 Scenario.merge Scenario.ttflist "data" "out").1
    = ["out/2000.png"; "out/2001.png"; "out/2002.png"].
Proof.
  destruct (years_sorted_subdirectories unit string Scenario.listdir Scenario.isdir
              Scenario.rasterio_open Scenario.merge Scenario.ttflist
              "data" ["2002"; "README.txt"; "2000"; "2001"] Scenario.years
              eq_refl ltac:(vm_compute; reflexivity))
    as (Hp & _ & Hs & _ & _ & Hm).
  split; [exact Hp|]. split; [exact Hs|].
  apply (Hm "out"). vm_compute. reflexivity.
Defined.

(** * Further properties of the script *)

(** ** When the loop succeeds: the shapes of the mosaics *)


Lemma setitem_mask_cases {A} (a : ndarray A) (m : mask) (v : A) :
  setitem_mask a m v = Ok (paint a m v) \/ setitem_mask a m v = Raise IndexError.
Proof. unfold setitem_mask. destruct (shape_eqb _ _); auto. Qed.

Lemma render_cases (curr : grid) (cl cg : mask) :
  (exists rgba, render curr cl cg = Ok rgba) \/ render curr cl cg = Raise IndexError.
Proof.
  unfold render. destruct (shape curr) as [h w].
  destruct (setitem_mask_cases (zeros h w transparent) cg gain_color) as [-> | ->];
    simpl; [|by right].
  destruct (setitem_mask_cases (paint (zeros h w transparent) cg gain_color) cl loss_color)
    as [-> | ->]; [left; by eexists | by right].
Qed.

Lemma logical_and_cases (a b : mask) :
  logical_and a b =
    if compat_shapes (shape a) (shape b)
    then Ok (zip_with (zip_with andb)
               (broadcast_to (bdim (length a) (length b)) (bdim (ncols a) (ncols b)) a)
               (broadcast_to (bdim (length a) (length b)) (bdim (ncols a) (ncols b)) b))
    else Raise ValueError.
Proof. done. Qed.

Section LoopShapes.
Variable ttflist : list string.
Variable output_dir : string.
Variable year_arrays : gmap string grid.
Hypothesis arrays_rect : wf_arrays year_arrays.

Local Abbreviation body := (loop_body ttflist output_dir year_arrays).
Local Abbreviation loop := (run_loop ttflist output_dir year_arrays).


(** the state a successful iteration leaves *)
Lemma body_Ok_state st y t st' :
  wf_state st -> body st y = (t, Ok st') ->
  exists (c : mask * mask) (curr : grid),
    year_arrays !! y = Some curr /\ st' = LoopState (Some c) (Some curr) /\
    wf_state st' /\
    forall prev, previous_arr st = Some prev -> shape curr = shape prev.
Proof.
  intros Hwf H.
  destruct (loop_body_grows _ _ _ _ _ _ _ arrays_rect Hwf H) as (Hwf' & _).
  apply loop_body_Ok in H as (curr & cl & cg & rgba & Hy & Hu & Hr & _ & ->).
  exists (cl, cg), curr. split; [done|]. split; [done|]. split; [done|].
  intros prev Hp.
  destruct (step_inv st curr cl cg rgba Hwf (arrays_rect _ _ Hy) Hu Hr) as (_ & _ & Hst).
  destruct st as [[[cl0 cg0]|] [prev'|]]; simpl in *; try done.
  injection Hp as ->. by destruct Hst.
Qed.


Lemma loop_Ok_shapes ys st t st' (prev : grid) :
  wf_state st -> previous_arr st = Some prev ->
  loop ys st = (t, Ok st') ->
  forall y, y ∈ ys -> exists a : grid, year_arrays !! y = Some a /\ shape a = shape prev.
Proof.
  revert st t prev. induction ys as [|y ys IH]; intros st t prev Hwf Hp H y' Hy'.
  - by apply elem_of_nil in Hy'.
  - rewrite run_loop_cons in H.
    destruct (body st y) as [t1 [st1|e]] eqn:E1; [|done].
    destruct (loop ys st1) as [t2 r] eqn:E2. injection H as <- ->.
    destruct (body_Ok_state _ _ _ _ Hwf E1) as (c & curr & Hy & -> & Hwf1 & Hs).
    specialize (Hs prev Hp).
    apply elem_of_cons in Hy' as [-> | Hy'].
    + by exists curr.
    + destruct (IH _ _ curr Hwf1 eq_refl E2 y' Hy') as (a & Ha & Hsa).
      exists a. split; [done | congruence].
Qed.

End LoopShapes.

Lemma loop_Ok_same_shape ttflist output_dir (year_arrays : gmap string grid)
    (ys : list string) t st :
  wf_arrays year_arrays ->
  run_loop ttflist output_dir year_arrays ys init_state = (t, Ok st) ->
  exists s, forall y, y ∈ ys ->
    exists a : grid, year_arrays !! y = Some a /\ shape a = s.
Proof.
  intros Hya H. destruct ys as [|y ys].
  { exists (0%nat, 0%nat). intros y Hy. by apply elem_of_nil in Hy. }
  rewrite run_loop_cons in H.
  destruct (loop_body _ _ _ init_state y) as [t1 [st1|e]] eqn:E1; [|done].
  destruct (run_loop _ _ _ ys st1) as [t2 r] eqn:E2. injection H as <- ->.
  destruct (body_Ok_state _ _ _ Hya init_state _ _ _ I E1) as (c & curr & Hy & -> & Hwf1 & _).
  exists (shape curr). intros y' Hy'. apply elem_of_cons in Hy' as [-> | Hy'].
  - by exists curr.
  - by apply (loop_Ok_shapes _ _ _ Hya ys _ t2 st curr Hwf1 eq_refl E2).
Qed.



(** ** When the loop fails: a year of another shape *)

Lemma loop_body_Raise ttflist output_dir (year_arrays : gmap string grid)
    st y (curr : grid) e :
  year_arrays !! y = Some curr ->
  (update_masks st curr = Raise e \/
   exists cl cg, update_masks st curr = Ok (cl, cg) /\ render curr cl cg = Raise e) ->
  loop_body ttflist output_dir year_arrays st y = ([], Raise e).
Proof.
  intros Hy H. unfold loop_body, getitem. rewrite Hy. simpl.
  destruct H as [-> | (cl & cg & -> & Hr)]; [done|]. simpl. by rewrite Hr.
Qed.

Lemma transition_cases (prev curr : grid) (u v : Z) :
  (compat_shapes (shape prev) (shape curr) = false ->
   logical_and (eq_scalar prev u) (eq_scalar curr v) = Raise ValueError) /\
  (compat_shapes (shape prev) (shape curr) = true ->
   exists m, logical_and (eq_scalar prev u) (eq_scalar curr v) = Ok m).
Proof.
  rewrite logical_and_cases. unfold eq_scalar. rewrite !shape_map_cells.
  destruct (compat_shapes (shape prev) (shape curr)); split; try done.
  intros _. by eexists.
Qed.

(** X2: when a year's mosaic has not the shape of the year before, the
    loop stops at that year without saving or printing anything for it:
    with ValueError when numpy cannot broadcast the two shapes against each
    other, with IndexError when it can.  The figures of the earlier years
    stay saved, those of the later years are never made. *)
Theorem shape_mismatch_aborts ttflist output_dir (year_arrays : gmap string grid)
    (ys1 : list string) (y : string) (ys2 : list string) t1 st1 (prev curr : grid) :
  wf_arrays year_arrays ->
  run_loop ttflist output_dir year_arrays ys1 init_state = (t1, Ok st1) ->
  previous_arr st1 = Some prev ->
  year_arrays !! y = Some curr ->
  shape curr <> shape prev ->
  run_loop ttflist output_dir year_arrays (ys1 ++ y :: ys2) init_state =
    (t1, Raise (if compat_shapes (shape prev) (shape curr)
                then IndexError else ValueError)) /\
  length (frames t1) = length ys1.
Proof.
  intros Hya H1 Hp Hy Hne. split; [|by eapply loop_frames_length].
  destruct (run_loop_grows _ _ _ _ init_state _ _ Hya I H1) as (Hwf1 & _).
  rewrite run_loop_app, H1, run_loop_cons.
  assert (loop_body ttflist output_dir year_arrays st1 y =
            ([], Raise (if compat_shapes (shape prev) (shape curr)
                        then IndexError else ValueError))) as ->.
  2: { by rewrite app_nil_r. }
  apply (loop_body_Raise _ _ _ _ _ curr); [done|].
  destruct st1 as [[[cl0 cg0]|] [prev'|]]; simpl in *; try done.
  injection Hp as ->. unfold update_masks. simpl. unfold gains_of, losses_of.
  destruct (transition_cases prev curr 0 1) as [Eg Hg].
  destruct (transition_cases prev curr 1 0) as [El Hl].
  destruct (compat_shapes (shape prev) (shape curr)) eqn:Ec.
  - destruct (Hg eq_refl) as [g Eg']. destruct (Hl eq_refl) as [l El'].
    rewrite Eg', El'. simpl.
    destruct (setitem_mask_cases cg0 g true) as [E1 | E1]; rewrite E1; simpl; [|by left].
    destruct (setitem_mask_cases cl0 l true) as [E2 | E2]; rewrite E2; simpl; [|by left].
    right. eexists _, _. split; [done|].
    destruct (render_cases curr (paint cl0 l true) (paint cg0 g true)) as [[rgba Hr] | Hr];
      [|done].
    exfalso. apply Hne.
    assert (update_masks (LoopState (Some (cl0, cg0)) (Some prev)) curr =
              Ok (paint cl0 l true, paint cg0 g true)) as Hu.
    { unfold update_masks. simpl. unfold gains_of, losses_of.
      rewrite Eg', El'. simpl. rewrite E1. simpl. by rewrite E2. }
    destruct (step_inv _ curr _ _ rgba Hwf1 (Hya _ _ Hy) Hu Hr) as (_ & _ & Hs & _).
    exact Hs.
  - left. by rewrite (Eg eq_refl).
Qed.

Lemma shape_mismatch_aborts_witness :
  (run_loop Scenario.ttflist "out" Mismatch.year_arrays ["2000"; "2001"] init_state).2
    = Raise IndexError /\
  length (frames (run_loop Scenario.ttflist "out" Mismatch.year_arrays
                    ["2000"; "2001"] init_state).1) = 1%nat.
Proof.
  assert (wf_arrays Mismatch.year_arrays) as Hwf.
  { intros y arr. unfold Mismatch.year_arrays. rewrite !lookup_insert.
    repeat case_decide; try (intros [= <-]; by repeat constructor). }
  destruct (shape_mismatch_aborts Scenario.ttflist "out" Mismatch.year_arrays
              ["2000"] "2001" []
              (run_loop Scenario.ttflist "out" Mismatch.year_arrays ["2000"] init_state).1
              (LoopState (Some ([[false; false]], [[false; false]])) (Some [[0; 1]]))
              [[0; 1]] [[1]] Hwf) as [H1 H2].
  - vm_compute. reflexivity.
  - reflexivity.
  - reflexivity.
  - vm_compute. by intros [= ?].
  - simpl app in H1. rewrite H1. split; [reflexivity|].
    vm_compute. reflexivity.
Defined.

(** ** The history of a cell *)

Lemma cell_paint_true (a m : mask) i j :
  rect a -> rect m -> shape a = shape m ->
  (cell (paint a m true) i j = Some true <->
   cell a i j = Some true \/ cell m i j = Some true).
Proof.
  intros Ha Hm Hs. rewrite cell_paint.
  pose proof (cell_same_shape a m i j Ha Hm Hs) as Hsome.
  destruct (cell a i j) as [x|] eqn:Ea, (cell m i j) as [b|] eqn:Eb; simpl.
  - destruct b, x; split; intros; try done; try (by left); try (by right).
    by destruct H.
  - destruct (proj1 Hsome) as [? ?]; [by eexists | done].
  - destruct (proj2 Hsome) as [? ?]; [by eexists | done].
  - split; [done | by intros [?|?]].
Qed.

Lemma cell_changed_true (prev curr : grid) (u v : Z) i j :
  cell (zip_with (zip_with andb) (eq_scalar prev u) (eq_scalar curr v)) i j = Some true <->
  cell prev i j = Some u /\ cell curr i j = Some v.
Proof.
  rewrite cell_transition.
  destruct (cell prev i j) as [a|], (cell curr i j) as [b|]; simpl;
    try (split; [done | by intros [? ?]]).
  split.
  - intros [= H]. apply andb_true_iff in H as [H1 H2].
    apply Z.eqb_eq in H1, H2. by subst.
  - intros [[= ->] [= ->]]. by rewrite !Z.eqb_refl.
Qed.

Section History.
Variable ttflist : list string.
Variable output_dir : string.
Variable year_arrays : gmap string grid.
Hypothesis arrays_rect : wf_arrays year_arrays.

Local Abbreviation body := (loop_body ttflist output_dir year_arrays).
Local Abbreviation loop := (run_loop ttflist output_dir year_arrays).
Local Abbreviation changed := (transition_at year_arrays).

Lemma transition_at_single y u v i j : ~ changed [y] u v i j.
Proof.
  intros (k & yp & yc & ap & ac & _ & H & _). by destruct k.
Qed.

Lemma transition_at_snoc ys yp y u v i j :
  changed ((ys ++ [yp]) ++ [y]) u v i j <->
  changed (ys ++ [yp]) u v i j \/
  exists ap ac : grid,
    year_arrays !! yp = Some ap /\ year_arrays !! y = Some ac /\
    cell ap i j = Some u /\ cell ac i j = Some v.
Proof.
  split.
  - intros (k & a & b & ap & ac & Hk & HSk & Ha & Hb & Hu & Hv).
    pose proof (lookup_lt_Some _ _ _ HSk) as Hlt. rewrite !length_app in Hlt. simpl in Hlt.
    destruct (decide (S k < length (ys ++ [yp]))%nat) as [Hin|Hout].
    + left. rewrite lookup_app_l in Hk by lia. rewrite lookup_app_l in HSk by done.
      by exists k, a, b, ap, ac.
    + right. rewrite length_app in Hout. simpl in Hout.
      assert (k = length ys) as -> by lia.
      rewrite lookup_app_l in Hk by (rewrite length_app; simpl; lia).
      rewrite lookup_app_r in Hk by lia. rewrite Nat.sub_diag in Hk. injection Hk as <-.
      rewrite lookup_app_r in HSk by (rewrite length_app; simpl; lia).
      rewrite length_app in HSk. simpl in HSk.
      replace (S (length ys) - (length ys + 1))%nat with 0%nat in HSk by lia.
      injection HSk as <-. by exists ap, ac.
  - intros [(k & a & b & ap & ac & Hk & HSk & H) | (ap & ac & Ha & Hb & Hu & Hv)].
    + exists k, a, b, ap, ac. pose proof (lookup_lt_Some _ _ _ HSk) as Hlt.
      rewrite (lookup_app_l (ys ++ [yp]) [y] k), (lookup_app_l (ys ++ [yp]) [y] (S k)) by lia.
      done.
    + exists (length ys), yp, y, ap, ac. split_and!; try done.
      * rewrite lookup_app_l by (rewrite length_app; simpl; lia).
        rewrite lookup_app_r by lia. by rewrite Nat.sub_diag.
      * rewrite lookup_app_r by (rewrite length_app; simpl; lia).
        rewrite length_app. simpl.
        by replace (S (length ys) - (length ys + 1))%nat with 0%nat by lia.
Qed.

(** how a successful run of the loop ends *)
Lemma loop_end_state ys st t st' :
  loop ys st = (t, Ok st') ->
  (ys = [] /\ st' = st) \/
  exists (ys' : list string) yl (c : mask * mask) (curr : grid),
    ys = (ys' ++ [yl])%list /\ year_arrays !! yl = Some curr /\
    st' = LoopState (Some c) (Some curr).
Proof.
  destruct ys as [|y0 ys0] using rev_ind; intros H.
  - left. by injection H as _ <-.
  - right. apply loop_snoc_previous in H as (t0 & st0 & t1 & _ & H1 & _).
    apply loop_body_Ok in H1 as (curr & cl & cg & rgba & Hy & _ & _ & _ & ->).
    by exists ys0, y0, (cl, cg), curr.
Qed.

(** the masks a run ends with record exactly the transitions that occurred
    between consecutive years *)
Lemma loop_masks_history ys t st (cl cg : mask) :
  loop ys init_state = (t, Ok st) -> cumulative st = Some (cl, cg) ->
  forall i j,
    (cell cg i j = Some true <-> changed ys 0 1 i j) /\
    (cell cl i j = Some true <-> changed ys 1 0 i j).
Proof.
  revert t st cl cg. induction ys as [|y ys IH] using rev_ind; intros t st cl cg H Hc i j.
  { by injection H as _ <-. }
  apply loop_snoc_previous in H as (t0 & st0 & t1 & H0 & H1 & ->).
  destruct (run_loop_grows _ _ _ _ init_state _ _ arrays_rect I H0) as (Hwf0 & _).
  apply loop_body_Ok in H1 as (curr & cl' & cg' & rgba & Hy & Hu & Hr & _ & ->).
  simpl in Hc. injection Hc as -> ->.
  destruct (step_inv st0 curr cl cg rgba Hwf0 (arrays_rect _ _ Hy) Hu Hr) as (_ & _ & Hst).
  destruct (loop_end_state _ _ _ _ H0) as [[-> ->] | (ys' & yl & [cl0 cg0] & prev & -> & Hyl & ->)].
  - simpl in Hst. destruct Hst as [-> ->]. rewrite !cell_zeros_like.
    split; (split; [by destruct (cell curr i j) | intros Ht; by apply transition_at_single in Ht]).
  - simpl in Hst. destruct Hst as (Hs & -> & ->).
    destruct Hwf0 as (Rl & Rg & Rp & Sl & Sg). simpl in *.
    destruct (IH _ _ cl0 cg0 H0 eq_refl i j) as [IHg IHl].
    pose proof (arrays_rect _ _ Hy) as Rc.
    unfold gained, lost.
    rewrite !cell_paint_true, !cell_changed_true, !transition_at_snoc, IHg, IHl;
      try done; try (by apply rect_transition); try (rewrite shape_transition; done).
    split; (split; intros [?|?]; [by left | right | by left | right]).
    + by exists prev, curr.
    + destruct H as (ap & ac & Ha & Hb & ? & ?).
      rewrite Hyl in Ha. rewrite Hy in Hb. injection Ha as <-. injection Hb as <-. done.
    + by exists prev, curr.
    + destruct H as (ap & ac & Ha & Hb & ? & ?).
      rewrite Hyl in Ha. rewrite Hy in Hb. injection Ha as <-. injection Hb as <-. done.
Qed.

(** a run that succeeds also succeeds on every prefix of the years, and
    saves the same figures there *)
Lemma loop_prefix ys t st (k : nat) :
  loop ys init_state = (t, Ok st) -> (k < length ys)%nat ->
  exists tk stk,
    loop (take (S k) ys) init_state = (tk, Ok stk) /\
    length (frames tk) = S k /\ frames t !! k = frames tk !! k.
Proof.
  intros H Hk. rewrite <- (take_drop (S k) ys) in H. rewrite run_loop_app in H.
  destruct (loop (take (S k) ys) init_state) as [tk [stk|e]] eqn:E; [|done].
  destruct (loop (drop (S k) ys) stk) as [t2 r]. injection H as <- _.
  exists tk, stk. split; [done|].
  pose proof (loop_frames_length _ _ _ _ _ _ _ E) as Hlen.
  rewrite length_take in Hlen.
  split; [lia|]. rewrite frames_app, lookup_app_l by lia. done.
Qed.

End History.

Section Figures.
Variable ttflist : list string.
Variable output_dir : string.
Variable year_arrays : gmap string grid.
Hypothesis arrays_rect : wf_arrays year_arrays.

Local Abbreviation loop := (run_loop ttflist output_dir year_arrays).
Local Abbreviation changed := (transition_at year_arrays).

(** the pixel of the k-th figure at a cell of the k-th grid *)
Lemma frame_pixel ys t st (k : nat) y (curr : grid) i j :
  loop ys init_state = (t, Ok st) ->
  ys !! k = Some y -> year_arrays !! y = Some curr ->
  (i < length curr)%nat -> (j < ncols curr)%nat ->
  exists (fig : figure) (l g : bool),
    frames t !! k = Some fig /\
    cell (fig_rgba fig) i j =
      Some (if l then loss_color else if g then gain_color else transparent) /\
    (l = true <-> changed (take (S k) ys) 1 0 i j) /\
    (g = true <-> changed (take (S k) ys) 0 1 i j).
Proof.
  intros H Hk Hy Hi Hj. pose proof (lookup_lt_Some _ _ _ Hk) as Hlt.
  destruct (loop_prefix _ _ _ _ _ _ k H Hlt) as (tk & stk & E & Hlen & ->).
  rewrite (take_S_r _ _ _ Hk) in E |- *.
  pose proof E as E'.
  apply loop_snoc_previous in E as (t0 & st0 & t1 & H0 & H1 & ->).
  destruct (run_loop_grows _ _ _ _ init_state _ _ arrays_rect I H0) as (Hwf0 & _).
  destruct (loop_body_pixels _ _ _ arrays_rect _ _ _ _ Hwf0 H1)
    as (cl & cg & fig & curr' & -> & _ & Hf & Hy' & _ & Hpix).
  rewrite Hy in Hy'. injection Hy' as <-.
  destruct (Hpix i j Hi Hj) as (l & g & Hl & Hg & Hp).
  destruct (loop_masks_history _ _ _ arrays_rect _ _ _ cl cg E' eq_refl i j) as [Cg Cl].
  exists fig, l, g. split.
  { rewrite frames_app, Hf in Hlen |- *. rewrite length_app in Hlen. simpl in Hlen.
    rewrite lookup_app_r by lia. by replace (k - length (frames t0))%nat with 0%nat by lia. }
  split; [done|]. rewrite <- Cl, <- Cg, Hl, Hg.
  split; (split; [by intros -> | by intros [= ->]]).
Qed.

(** with one value in every year, a cell has no transition *)
Lemma no_transition_constant ys (n : nat) (u v w : Z) i j :
  (forall y a, y ∈ ys -> year_arrays !! y = Some a -> cell a i j = Some w) ->
  u <> v -> ~ changed (take n ys) u v i j.
Proof.
  intros Hconst Hne (k & yp & yc & ap & ac & Hk & HSk & Hap & Hac & Hu & Hv).
  apply lookup_take_Some in Hk as [Hk _]. apply lookup_take_Some in HSk as [HSk _].
  apply list_elem_of_lookup_2 in Hk, HSk.
  rewrite (Hconst _ _ Hk Hap) in Hu. rewrite (Hconst _ _ HSk Hac) in Hv. congruence.
Qed.

(** between a first value and a different last value, among values 0 and
    1, some year changes the first into the last *)
Lemma transition_exists ys : forall y0 (a0 : grid) (u w : Z) i j,
  (forall y, y ∈ y0 :: ys ->
     exists (a : grid) v, year_arrays !! y = Some a /\ cell a i j = Some v /\ (v = u \/ v = w)) ->
  year_arrays !! y0 = Some a0 -> cell a0 i j = Some u ->
  (exists yl (al : grid), last (y0 :: ys) = Some yl /\
     year_arrays !! yl = Some al /\ cell al i j = Some w) ->
  u <> w ->
  changed (y0 :: ys) u w i j.
Proof.
  induction ys as [|y1 ys IH]; intros y0 a0 u w i j Hall H0 Hu (yl & al & Hlast & Hl & Hw) Hne.
  - simpl in Hlast. injection Hlast as <-. rewrite H0 in Hl. injection Hl as <-. congruence.
  - destruct (Hall y1) as (a1 & v1 & H1 & Hv1 & [-> | ->]);
      [apply list_elem_of_further, list_elem_of_here | |].
    + destruct (IH y1 a1 u w i j) as (k & yp & yc & ap & ac & Hk & HSk & Hrest); try done.
      { intros y Hy. apply Hall. by apply list_elem_of_further. }
      { exists yl, al. rewrite last_cons_cons in Hlast. done. }
      by exists (S k), yp, yc, ap, ac.
    + by exists 0%nat, y0, y1, a0, a1.
Qed.

End Figures.

Lemma binary_where_gt0 (band : grid) : binary (where_gt0 band).
Proof.
  intros i j v. rewrite cell_where_gt0. destruct (cell band i j) as [x|]; [|done].
  simpl. intros [= <-]. unfold threshold. destruct (0 <? x); auto.
Qed.

Lemma binary_scenario y a :
  Scenario.year_arrays !! y = Some a -> binary a.
Proof.
  unfold Scenario.year_arrays. rewrite !lookup_insert.
  repeat case_decide; try done; intros [= <-].
  - by apply (binary_where_gt0 Scenario.grid2002).
  - by apply (binary_where_gt0 Scenario.grid2001).
  - by apply (binary_where_gt0 Scenario.grid2000).
Qed.

(** X3: what each figure shows.  In a run over rectangular mosaics that
    reaches its end, the figure of the k-th year paints a cell of that
    year's grid in the loss colour when the cell went from 1 to 0 between
    two consecutive years up to that year, in the gain colour when it never
    did so but went from 0 to 1 between two such years, and leaves it
    transparent when neither happened. *)
Theorem figure_shows_history ttflist output_dir (year_arrays : gmap string grid)
    (ys : list string) t st (k : nat) (y : string) (curr : grid) (i j : nat) :
  wf_arrays year_arrays ->
  run_loop ttflist output_dir year_arrays ys init_state = (t, Ok st) ->
  ys !! k = Some y -> year_arrays !! y = Some curr ->
  (i < length curr)%nat -> (j < ncols curr)%nat ->
  exists fig : figure,
    frames t !! k = Some fig /\
    (transition_at year_arrays (take (S k) ys) 1 0 i j ->
     cell (fig_rgba fig) i j = Some (255, 0, 0, 255)) /\
    (~ transition_at year_arrays (take (S k) ys) 1 0 i j ->
     transition_at year_arrays (take (S k) ys) 0 1 i j ->
     cell (fig_rgba fig) i j = Some (255, 255, 0, 255)) /\
    (~ transition_at year_arrays (take (S k) ys) 1 0 i j ->
     ~ transition_at year_arrays (take (S k) ys) 0 1 i j ->
     cell (fig_rgba fig) i j = Some (0, 0, 0, 0)).
Proof.
  intros Hya H Hk Hy Hi Hj.
  destruct (frame_pixel _ _ _ Hya _ _ _ _ _ _ _ _ H Hk Hy Hi Hj)
    as (fig & l & g & Hf & Hp & Hl & Hg).
  exists fig. split; [done|]. rewrite Hp. split_and!.
  - intros T. by rewrite (proj2 Hl T).
  - intros NT T. destruct l; [by destruct NT; apply Hl|]. by rewrite (proj2 Hg T).
  - intros NT NG. destruct l; [by destruct NT; apply Hl|].
    destruct g; [by destruct NG; apply Hg | done].
Qed.

Lemma figure_shows_history_witness :
  exists fig : figure,
    frames (run_loop Scenario.ttflist "out" Scenario.flicker_arrays
              ["2000"; "2001"; "2002"; "2003"] init_state).1 !! 1%nat = Some fig /\
    cell (fig_rgba fig) 0 0 = Some (255, 255, 0, 255).
Proof.
  destruct (figure_shows_history Scenario.ttflist "out" Scenario.flicker_arrays
              ["2000"; "2001"; "2002"; "2003"]
              (run_loop Scenario.ttflist "out" Scenario.flicker_arrays
                 ["2000"; "2001"; "2002"; "2003"] init_state).1
              (LoopState (Some ([[true]], [[true]])) (Some [[0]]))
              1 "2001" [[1]] 0 0 wf_arrays_flicker)
    as (fig & Hf & _ & Hg & _);
    [vm_compute; reflexivity | reflexivity | reflexivity | simpl; lia | simpl; lia |].
  exists fig. split; [exact Hf|]. apply Hg.
  - intros (k & yp & yc & ap & ac & Hk & HSk & Hap & Hac & Hu & Hv).
    destruct k as [|[|k]]; simpl in Hk, HSk; try discriminate.
    injection Hk as <-. injection HSk as <-.
    vm_compute in Hap. injection Hap as <-. discriminate Hu.
  - exists 0%nat, "2000", "2001", [[0]], [[1]]. by repeat split.
Defined.

(** X4: a cell that has the same value in every year is transparent in
    every figure of a run that reaches its end. *)
Theorem unchanged_cell_stays_transparent ttflist output_dir
    (year_arrays : gmap string grid) (ys : list string) t st (i j : nat) (w : Z) :
  wf_arrays year_arrays ->
  run_loop ttflist output_dir year_arrays ys init_state = (t, Ok st) ->
  (forall y a, y ∈ ys -> year_arrays !! y = Some a -> cell a i j = Some w) ->
  length (frames t) = length ys /\
  forall fig, fig ∈ frames t -> cell (fig_rgba fig) i j = Some (0, 0, 0, 0).
Proof.
  intros Hya H Hconst. pose proof (loop_frames_length _ _ _ _ _ _ _ H) as Hlen.
  split; [done|]. intros fig Hfig.
  apply list_elem_of_lookup in Hfig as [k Hk].
  pose proof (lookup_lt_Some _ _ _ Hk) as Hlt. rewrite Hlen in Hlt.
  destruct (lookup_lt_is_Some_2 ys k Hlt) as [y Hy].
  destruct (loop_Ok_same_shape _ _ _ _ _ _ Hya H) as (s & Hs).
  destruct (Hs y) as (curr & Hc & _); [by eapply list_elem_of_lookup_2|].
  pose proof (Hconst y curr ltac:(by eapply list_elem_of_lookup_2) Hc) as Hcell.
  destruct (proj1 (cell_is_Some curr i j (Hya _ _ Hc))) as [Hi Hj]; [by eexists|].
  destruct (frame_pixel _ _ _ Hya _ _ _ _ _ _ _ _ H Hy Hc Hi Hj)
    as (fig' & l & g & Hf & Hp & Hl & Hg).
  rewrite Hk in Hf. injection Hf as <-. rewrite Hp.
  destruct l.
  { exfalso. apply (no_transition_constant year_arrays ys (S k) 1 0 w i j Hconst); [done|].
    by apply Hl. }
  destruct g; [|done].
  exfalso. apply (no_transition_constant year_arrays ys (S k) 0 1 w i j Hconst); [done|].
  by apply Hg.
Qed.

Lemma unchanged_cell_stays_transparent_witness :
  length (frames (run_loop Scenario.ttflist "out" Scenario.year_arrays
                    Scenario.years init_state).1) = length Scenario.years /\
  forall fig,
    fig ∈ frames (run_loop Scenario.ttflist "out" Scenario.year_arrays
                    Scenario.years init_state).1 ->
    cell (fig_rgba fig) 0 1 = Some (0, 0, 0, 0).
Proof.
  apply (unchanged_cell_stays_transparent Scenario.ttflist "out" Scenario.year_arrays
           Scenario.years
           (run_loop Scenario.ttflist "out" Scenario.year_arrays Scenario.years init_state).1
           (LoopState (Some ([[false; false]; [false; false]], [[true; false]; [true; true]]))
                      (Some Scenario.grid2002))
           0 1 0 wf_arrays_scenario).
  - vm_compute. reflexivity.
  - intros y a _. unfold Scenario.year_arrays. rewrite !lookup_insert.
    repeat case_decide; try done; by intros [= <-].
Defined.

(** X5: over presence grids (cells 0 or 1), a net change is never missed:
    when a run reaches its end, a cell absent in the first year and
    present in the last is in the final gain mask, and a cell present in
    the first year and absent in the last is in the final loss mask. *)
Theorem net_change_is_recorded ttflist output_dir (year_arrays : gmap string grid)
    (y0 : string) (ys : list string) t st (yl : string) (a0 al : grid) (i j : nat) :
  wf_arrays year_arrays ->
  (forall y a, y ∈ y0 :: ys -> year_arrays !! y = Some a -> binary a) ->
  run_loop ttflist output_dir year_arrays (y0 :: ys) init_state = (t, Ok st) ->
  last (y0 :: ys) = Some yl ->
  year_arrays !! y0 = Some a0 -> year_arrays !! yl = Some al ->
  exists cl cg : mask,
    cumulative st = Some (cl, cg) /\
    (cell a0 i j = Some 0 -> cell al i j = Some 1 -> cell cg i j = Some true) /\
    (cell a0 i j = Some 1 -> cell al i j = Some 0 -> cell cl i j = Some true).
Proof.
  intros Hya Hbin H Hlast H0 Hl.
  destruct (loop_end_state _ _ _ _ _ _ _ H)
    as [[? _] | (ys' & yl' & [cl cg] & curr & _ & _ & ->)]; [done|].
  exists cl, cg. split; [done|].
  destruct (loop_masks_history _ _ _ Hya _ _ _ cl cg H eq_refl i j) as [Cg Cl].
  destruct (loop_Ok_same_shape _ _ _ _ _ _ Hya H) as (s & Hs).
  assert (forall u w, (u = 0 /\ w = 1) \/ (u = 1 /\ w = 0) ->
            cell a0 i j = Some u -> cell al i j = Some w ->
            transition_at year_arrays (y0 :: ys) u w i j) as Hex.
  { intros u w Huw Hu Hw.
    apply (transition_exists year_arrays ys y0 a0 u w i j); try done.
    - intros y Hy. destruct (Hs y Hy) as (a & Ha & Hsa). exists a.
      destruct (Hs y0 (list_elem_of_here _ _)) as (a0' & Ha0 & Hsa0).
      rewrite H0 in Ha0. injection Ha0 as <-.
      destruct (proj1 (cell_same_shape a0 a i j (Hya _ _ H0) (Hya _ _ Ha)
                         ltac:(congruence))) as [v Hv]; [by eexists|].
      exists v. split; [done|]. split; [done|].
      destruct (Hbin y a Hy Ha i j v Hv) as [-> | ->]; lia.
    - by exists yl, al.
    - lia. }
  split; intros Hu Hw.
  - apply Cg. apply Hex; [by left | done | done].
  - apply Cl. apply Hex; [by right | done | done].
Qed.

Lemma net_change_is_recorded_witness :
  exists cl cg : mask,
    cumulative (LoopState (Some ([[false; false]; [false; false]],
                                 [[true; false]; [true; true]]))
                          (Some Scenario.grid2002)) = Some (cl, cg) /\
    cell cg 1 1 = Some true.
Proof.
  destruct (net_change_is_recorded Scenario.ttflist "out" Scenario.year_arrays
              "2000" ["2001"; "2002"]
              (run_loop Scenario.ttflist "out" Scenario.year_arrays Scenario.years init_state).1
              (LoopState (Some ([[false; false]; [false; false]], [[true; false]; [true; true]]))
                         (Some Scenario.grid2002))
              "2002" Scenario.grid2000 Scenario.grid2002 1 1 wf_arrays_scenario)
    as (cl & cg & Hc & Hg & _).
  - intros y a _. apply binary_scenario.
  - vm_compute. reflexivity.
  - reflexivity.
  - reflexivity.
  - reflexivity.
  - exists cl, cg. split; [exact Hc|]. apply Hg; reflexivity.
Defined.

(** ** Loading the mosaics, and the runs that end early *)

Lemma map_result_first_error {A B} (f : A -> result B) (l1 : list A) (x : A)
    (l2 : list A) (e : exn) :
  Forall (fun a => is_ok (f a) = true) l1 -> f x = Raise e ->
  map_result f (l1 ++ x :: l2) = Raise e.
Proof.
  intros Hl Hx. induction Hl as [|a l1 Ha _ IH]; simpl.
  - by rewrite Hx.
  - destruct (f a); [|done]. simpl. by rewrite IH.
Qed.

Section MoreMainFacts.
Variable transform : Type.
Variable dataset : Type.
Variable listdir : string -> result (list string).
Variable isdir : string -> bool.
Variable rasterio_open : string -> result dataset.
Variable merge : list dataset -> result (list grid * transform).
Variable ttflist : list string.

Local Abbreviation mosaic := (mosaic_year_tiles transform dataset listdir rasterio_open merge).
Local Abbreviation tif_files := (glob_tif listdir).
Local Abbreviation years_of := (list_years listdir isdir).
Local Abbreviation load := (load_years transform dataset listdir rasterio_open merge).
Local Abbreviation script := (main transform dataset listdir isdir rasterio_open merge ttflist).

Lemma load_years_cons data_dir y years ya :
  load data_dir (y :: years) ya =
    match mosaic (Path.join data_dir y) with
    | Ok (arr, _) =>
        let '(t, r) := load data_dir years (<[y := arr]> ya) in
        (CallMosaic (Path.join data_dir y) :: t, r)
    | Raise e => ([CallMosaic (Path.join data_dir y)], Raise e)
    end.
Proof.
  simpl. unfold mbind, M_bind, emit, lift. simpl.
  destruct (mosaic (Path.join data_dir y)) as [[arr tr]|e]; [|done].
  by destruct (load data_dir years (<[y:=arr]> ya)).
Qed.

(** what the dictionary holds after loading *)
Lemma load_years_spec data_dir years ya t ya' :
  load data_dir years ya = (t, Ok ya') ->
  forall y,
    (y ∈ years ->
     exists arr tr, mosaic (Path.join data_dir y) = Ok (arr, tr) /\ ya' !! y = Some arr) /\
    (y ∉ years -> ya' !! y = ya !! y).
Proof.
  revert ya t. induction years as [|y0 years IH]; intros ya t H y.
  - injection H as _ <-. split; [intros Hy; by apply elem_of_nil in Hy | done].
  - rewrite load_years_cons in H.
    destruct (mosaic (Path.join data_dir y0)) as [[arr0 tr0]|e] eqn:E0; [|done].
    destruct (load data_dir years (<[y0:=arr0]> ya)) as [t' r] eqn:E.
    injection H as _ ->. destruct (IH _ _ E y) as [IHin IHout].
    split.
    + intros Hy. destruct (decide (y ∈ years)) as [Hin|Hnin]; [by apply IHin|].
      apply elem_of_cons in Hy as [-> | Hy]; [|done].
      exists arr0, tr0. split; [done|]. rewrite (IHout Hnin). apply lookup_insert_eq.
    + intros Hy. apply not_elem_of_cons in Hy as [Hne Hnin].
      rewrite (IHout Hnin). by apply lookup_insert_ne.
Qed.

Lemma mosaic_Ok_inv year_path (arr : grid) (tr : transform) :
  mosaic year_path = Ok (arr, tr) ->
  exists srcs (band : grid) (rest : list grid),
    merge srcs = Ok (band :: rest, tr) /\ arr = where_gt0 band.
Proof.
  unfold mosaic_year_tiles. destruct (tif_files year_path) as [|f fs]; [done|].
  destruct (map_result rasterio_open (f :: fs)) as [srcs|e]; [|done]. simpl.
  destruct (merge srcs) as [[[|band rest] tr']|e] eqn:Em; try done. simpl.
  intros [= <- <-]. by exists srcs, band, rest.
Qed.


(** X7: the mosaics [main] holds are presence grids, and they are
    rectangular as soon as the bands the raster library returns are: the
    loop always runs on the kind of arrays assumed for it. *)
Theorem loaded_arrays_well_formed data_dir (years : list string) t
    (year_arrays : gmap string grid) :
  (forall srcs bands tr, merge srcs = Ok (bands, tr) -> Forall rect bands) ->
  load data_dir years ∅ = (t, Ok year_arrays) ->
  wf_arrays year_arrays /\
  (forall y a, year_arrays !! y = Some a -> binary a).
Proof.
  intros Hrect H.
  assert (forall y a, year_arrays !! y = Some a ->
            exists band : grid, rect band /\ a = where_gt0 band) as Hinv.
  { intros y a Hy. destruct (load_years_spec _ _ _ _ _ H y) as [Hin Hout].
    destruct (decide (y ∈ years)) as [Hy'|Hy'].
    - destruct (Hin Hy') as (arr & tr & Hm & Ha). rewrite Hy in Ha. injection Ha as <-.
      apply mosaic_Ok_inv in Hm as (srcs & band & rest & Hm & ->).
      exists band. split; [|done].
      pose proof (Hrect _ _ _ Hm) as Hb. by apply Forall_cons in Hb as [Hb _].
    - rewrite (Hout Hy'), lookup_empty in Hy. done. }
  split.
  - intros y a Hy. destruct (Hinv y a Hy) as (band & Hb & ->).
    by apply rect_map_cells.
  - intros y a Hy. destruct (Hinv y a Hy) as (band & _ & ->). apply binary_where_gt0.
Qed.

Lemma load_years_fails data_dir ys1 y ys2 ya e :
  Forall (fun y' => is_ok (mosaic (Path.join data_dir y')) = true) ys1 ->
  mosaic (Path.join data_dir y) = Raise e ->
  load data_dir (ys1 ++ y :: ys2)%list ya =
    ((fun y' => CallMosaic (Path.join data_dir y')) <$> (ys1 ++ [y])%list, Raise e).
Proof.
  intros Hok Hy. revert ya. induction Hok as [|y1 ys1 H1 _ IH]; intros ya.
  - simpl app. rewrite load_years_cons, Hy. done.
  - rewrite <- !app_comm_cons, load_years_cons.
    destruct (mosaic (Path.join data_dir y1)) as [[arr tr]|e1]; [|done].
    by rewrite IH.
Qed.

(** X8: all mosaics are made before anything is drawn: when the
    mosaicker fails on some year (the earlier years, in sorted order,
    having been mosaicked), [main] ends with that exception, has tried no
    later year and has saved no figure at all. *)
Theorem mosaic_failure_stops_main data_dir output_dir
    (ys1 : list string) (y : string) (ys2 : list string) (e : exn) :
  years_of data_dir = Ok (ys1 ++ y :: ys2)%list ->
  Forall (fun y' => is_ok (mosaic (Path.join data_dir y')) = true) ys1 ->
  mosaic (Path.join data_dir y) = Raise e ->
  script data_dir output_dir =
    (Makedirs output_dir :: ((fun y' => CallMosaic (Path.join data_dir y')) <$> (ys1 ++ [y])%list),
     Raise e) /\
  frames (script data_dir output_dir).1 = [] /\
  mosaic_calls (script data_dir output_dir).1 = Path.join data_dir <$> (ys1 ++ [y])%list.
Proof.
  intros Hyears Hok Hy.
  assert (script data_dir output_dir =
    (Makedirs output_dir :: ((fun y' => CallMosaic (Path.join data_dir y')) <$> (ys1 ++ [y])%list),
     Raise e)) as Hmain.
  { unfold main. unfold mbind at 1 2, M_bind, emit, lift. simpl.
    rewrite Hyears. simpl. by rewrite (load_years_fails _ _ _ _ _ _ Hok Hy). }
  split; [done|]. rewrite Hmain. simpl. split.
  - generalize (ys1 ++ [y])%list. intros l. induction l as [|a l IH]; [done|]. exact IH.
  - apply mosaic_calls_load.
Qed.


End MoreMainFacts.


Lemma loaded_arrays_well_formed_witness :
  wf_arrays Scenario.year_arrays /\
  (forall y a, Scenario.year_arrays !! y = Some a -> binary a).
Proof.
  apply (loaded_arrays_well_formed unit string Scenario.listdir Scenario.rasterio_open
           Scenario.merge "data" Scenario.years
           (load_years unit string Scenario.listdir Scenario.rasterio_open Scenario.merge
              "data" Scenario.years ∅).1 Scenario.year_arrays).
  - intros srcs bands tr. unfold Scenario.merge.
    destruct srcs as [|p [|q srcs]]; try done.
    repeat (destruct (String.eqb p _); [intros [= <- <-]; by repeat constructor|]).
    done.
  - vm_compute. reflexivity.
Defined.

Lemma mosaic_failure_stops_main_witness :
  main unit string Broken.listdir Scenario.isdir Scenario.rasterio_open Scenario.merge
    Scenario.ttflist "data" "out" =
    ([Makedirs "out"; CallMosaic "data/2000"; CallMosaic "data/2001"],
     Raise (FileNotFoundError "No .tif files found in data/2001")) /\
  frames (main unit string Broken.listdir Scenario.isdir Scenario.rasterio_open
            Scenario.merge Scenario.ttflist "data" "out").1 = [].
Proof.
  destruct (mosaic_failure_stops_main unit string Broken.listdir Scenario.isdir
              Scenario.rasterio_open Scenario.merge Scenario.ttflist "data" "out"
              ["2000"] "2001" ["2002"]
              (FileNotFoundError "No .tif files found in data/2001"))
    as (H1 & H2 & _).
  - vm_compute. reflexivity.
  - by repeat constructor.
  - vm_compute. reflexivity.
  - split; [exact H1 | exact H2].
Defined.


(** ** The order of the years *)

(** X10: the year sequence does not depend on the order in which the
    operating system lists the root directory: two listings with the same
    entries give the same years. *)
Theorem years_independent_of_listing_order
    (listdir listdir' : string -> result (list string)) (isdir : string -> bool)
    (data_dir : string) (names names' : list string) :
  listdir data_dir = Ok names -> listdir' data_dir = Ok names' ->
  names ≡ₚ names' ->
  list_years listdir isdir data_dir = list_years listdir' isdir data_dir.
Proof.
  intros H H' Hp. unfold list_years. rewrite H, H'. simpl. f_equal.
  apply (StronglySorted_unique str_le); try apply sorted_StronglySorted.
  rewrite !sorted_Permutation. by rewrite Hp.
Qed.

Lemma years_independent_of_listing_order_witness :
  list_years Scenario.listdir Scenario.isdir "data" =
  list_years (fun _ => Ok ["2000"; "2001"; "README.txt"; "2002"]) Scenario.isdir "data".
Proof.
  apply (years_independent_of_listing_order Scenario.listdir
           (fun _ => Ok ["2000"; "2001"; "README.txt"; "2002"]) Scenario.isdir "data"
           ["2002"; "README.txt"; "2000"; "2001"] ["2000"; "2001"; "README.txt"; "2002"]).
  - reflexivity.
  - reflexivity.
  - apply (Permutation_trans (l' := ["2000"; "2002"; "README.txt"; "2001"])).
    + apply (Permutation_trans (l' := ["README.txt"; "2002"; "2000"; "2001"]));
        [apply perm_swap|].
      apply (Permutation_trans (l' := ["README.txt"; "2000"; "2002"; "2001"]));
        [apply perm_skip, perm_swap|].
      apply (Permutation_trans (l' := ["2000"; "README.txt"; "2002"; "2001"]));
        [apply perm_swap|].
      apply perm_skip, perm_swap.
    + apply perm_skip.
      apply (Permutation_trans (l' := ["2002"; "2001"; "README.txt"]));
        [apply perm_skip, perm_swap|].
      apply (Permutation_trans (l' := ["2001"; "2002"; "README.txt"]));
        [apply perm_swap|].
      apply perm_skip, perm_swap.
Defined.

(** ** Failures inside the mosaicker *)

(** X11: once tiles are found, every failure of the raster library ends
    [mosaic_year_tiles] with the library's own exception: the first tile, in
    glob order, that cannot be opened decides, then a failing merge; and a
    merged array without any band ends it with IndexError. *)
Theorem mosaic_error_propagation (transform dataset : Type)
    (listdir : string -> result (list string))
    (rasterio_open : string -> result dataset)
    (merge : list dataset -> result (list grid * transform)) (year_path : string) :
  (forall (l1 : list string) x (l2 : list string) e,
     glob_tif listdir year_path = (l1 ++ x :: l2)%list ->
     Forall (fun p => is_ok (rasterio_open p) = true) l1 ->
     rasterio_open x = Raise e ->
     mosaic_year_tiles transform dataset listdir rasterio_open merge year_path = Raise e) /\
  (forall srcs e,
     glob_tif listdir year_path <> [] ->
     map_result rasterio_open (glob_tif listdir year_path) = Ok srcs ->
     merge srcs = Raise e ->
     mosaic_year_tiles transform dataset listdir rasterio_open merge year_path = Raise e) /\
  (forall srcs tr,
     glob_tif listdir year_path <> [] ->
     map_result rasterio_open (glob_tif listdir year_path) = Ok srcs ->
     merge srcs = Ok ([], tr) ->
     mosaic_year_tiles transform dataset listdir rasterio_open merge year_path
       = Raise IndexError).
Proof.
  split_and!.
  - intros l1 x l2 e Hg Hok Hx.
    destruct (glob_tif listdir year_path) as [|f fs] eqn:E.
    { by destruct l1. }
    rewrite (mosaic_cons _ _ _ _ _ _ _ _ E), Hg.
    by rewrite (map_result_first_error _ _ _ _ _ Hok Hx).
  - intros srcs e Hne Ho Hm.
    destruct (glob_tif listdir year_path) as [|f fs] eqn:E; [done|].
    rewrite (mosaic_cons _ _ _ _ _ _ _ _ E), Ho. simpl. by rewrite Hm.
  - intros srcs tr Hne Ho Hm.
    destruct (glob_tif listdir year_path) as [|f fs] eqn:E; [done|].
    rewrite (mosaic_cons _ _ _ _ _ _ _ _ E), Ho. simpl. by rewrite Hm.
Qed.

Lemma mosaic_error_propagation_witness :
  mosaic_year_tiles unit string (fun _ => Ok ["a.tif"; "b.tif"; "c.tif"])
    (fun p => if String.eqb p "y/b.tif" then Raise (RasterioError p) else Ok p)
    Scenario.merge "y" = Raise (RasterioError "y/b.tif") /\
  mosaic_year_tiles unit string (fun _ => Ok ["a.tif"]) Scenario.rasterio_open
    (fun _ => Ok ([], tt)) "y" = Raise IndexError.
Proof.
  split.
  - apply (proj1 (mosaic_error_propagation unit string (fun _ => Ok ["a.tif"; "b.tif"; "c.tif"])
                    (fun p => if String.eqb p "y/b.tif" then Raise (RasterioError p) else Ok p)
                    Scenario.merge "y") ["y/a.tif"] "y/b.tif" ["y/c.tif"]).
    + reflexivity.
    + by repeat constructor.
    + reflexivity.
  - apply (proj2 (proj2 (mosaic_error_propagation unit string (fun _ => Ok ["a.tif"])
                           Scenario.rasterio_open (fun _ => Ok ([], tt)) "y"))
             ["y/a.tif"] tt).
    + discriminate.
    + reflexivity.
    + reflexivity.
Defined.

(** ** The font *)

Lemma printed_year_events ttflist output_dir y rgba cl cg :
  printed (year_events ttflist output_dir y rgba cl cg) =
    ((if decide ("Roboto" ∈ ttflist) then [] else [font_warning]) ++
     ["Saved " +:+ Path.join output_dir (y +:+ ".png")])%list.
Proof. unfold year_events, font_events, printed. by case_decide. Qed.

(** X12: every figure of a run that reaches its end is drawn at size 12
    in Roboto when matplotlib knows that font and in sans-serif otherwise;
    the warning is printed once per year in the second case and never in
    the first. *)
Theorem font_fallback ttflist output_dir (year_arrays : gmap string grid)
    (ys : list string) st t st' :
  run_loop ttflist output_dir year_arrays ys st = (t, Ok st') ->
  Forall (fun fig => fig_fontsize fig = 12 /\
            fig_fontfamily fig =
              if decide ("Roboto" ∈ ttflist) then "Roboto" else "sans-serif")
         (frames t) /\
  length (filter (fun line => line = font_warning) (printed t)) =
    if decide ("Roboto" ∈ ttflist) then 0%nat else length ys.
Proof.
  revert st t. induction ys as [|y ys IH]; intros st t H.
  - injection H as <- _. split; [constructor | by case_decide].
  - rewrite run_loop_cons in H.
    destruct (loop_body _ _ _ st y) as [t1 [st1|e]] eqn:E1; [|done].
    destruct (run_loop _ _ _ ys st1) as [t2 r] eqn:E2. injection H as <- ->.
    apply loop_body_Ok in E1 as (curr & cl & cg & rgba & _ & _ & _ & -> & _).
    destruct (IH _ _ E2) as [IHf IHw]. split.
    + rewrite frames_app, frames_year_events. constructor; [|done]. done.
    + unfold printed in *. rewrite omap_app, filter_app, length_app, IHw.
      fold (printed (year_events ttflist output_dir y rgba cl cg)).
      rewrite printed_year_events. by case_decide.
Qed.

Lemma font_fallback_witness :
  Forall (fun fig => fig_fontsize fig = 12 /\ fig_fontfamily fig = "sans-serif")
    (frames (Scenario.run 3).1) /\
  length (filter (fun line => line = font_warning) (printed (Scenario.run 3).1)) = 3%nat.
Proof.
  apply (font_fallback Scenario.ttflist "out" Scenario.year_arrays Scenario.years
           init_state (Scenario.run 3).1
           (LoopState (Some ([[false; false]; [false; false]], [[true; false]; [true; true]]))
                      (Some Scenario.grid2002))).
  vm_compute. reflexivity.
Defined.

(** ** Comparing two years *)

Lemma compat_sym (n m : nat) : compat n m = compat m n.
Proof.
  unfold compat. rewrite (Nat.eqb_sym n m).
  destruct (m =? n)%nat, (n =? 1)%nat, (m =? 1)%nat; done.
Qed.

Lemma bdim_comm (n m : nat) : compat n m = true -> bdim n m = bdim m n.
Proof.
  unfold compat, bdim.
  destruct (Nat.eqb_spec n m), (Nat.eqb_spec n 1), (Nat.eqb_spec m 1); simpl; try done; lia.
Qed.

Lemma zip_with_andb_comm (a b : mask) :
  zip_with (zip_with andb) a b = zip_with (zip_with andb) b a.
Proof.
  revert b. induction a as [|r a IH]; intros [|s b]; simpl; try done.
  rewrite IH. f_equal. clear. revert s.
  induction r as [|x r IHr]; intros [|y s]; simpl; try done.
  by rewrite IHr, andb_comm.
Qed.

Lemma logical_and_comm (a b : mask) : logical_and a b = logical_and b a.
Proof.
  rewrite !logical_and_cases. unfold compat_shapes. simpl.
  rewrite (compat_sym (length b)), (compat_sym (ncols b)).
  destruct (compat (length a) (length b)) eqn:E1; [|done].
  destruct (compat (ncols a) (ncols b)) eqn:E2; [|done]. simpl.
  rewrite (bdim_comm _ _ E1), (bdim_comm _ _ E2). by rewrite zip_with_andb_comm.
Qed.

(** X13: going through two years in the opposite order exchanges gains
    and losses, whatever the shapes: the comparison of line 64 on
    (prev, curr) is the comparison of line 65 on (curr, prev), with the same
    mask or the same exception. *)
Theorem gains_are_losses_backwards (prev curr : grid) :
  gains_of prev curr = losses_of curr prev /\
  losses_of prev curr = gains_of curr prev.
Proof. unfold gains_of, losses_of. split; apply logical_and_comm. Qed.



(** ** The picture against the reported areas *)

Lemma count_color_cons (p q : pixel) (row : list pixel) :
  count_color p (q :: row) = (if decide (q = p) then 1 else 0) + count_color p row.
Proof.
  unfold count_color. rewrite filter_cons.
  destruct (decide (q = p)) as [e|n];
    [rewrite decide_True by done | rewrite decide_False by done]; simpl; lia.
Qed.

Lemma count_row_overlay (rl rg : list bool) :
  length rl = length rg ->
  let row := zip_with (fun x (b : bool) => if b then loss_color else x)
               (zip_with (fun x (b : bool) => if b then gain_color else x)
                  (replicate (length rg) transparent) rg) rl in
  count_color loss_color row = count_row rl /\
  count_color gain_color row = count_row rg - count_row (zip_with andb rg rl) /\
  count_color transparent row =
    Z.of_nat (length rg) - count_row rl - count_row rg + count_row (zip_with andb rg rl).
Proof.
  revert rg. induction rl as [|l rl IH]; intros [|g rg] Hlen; simpl in *; try done.
  destruct (IH rg ltac:(lia)) as (IH1 & IH2 & IH3).
  rewrite !count_color_cons, !count_row_cons, IH1, IH2, IH3.
  destruct l, g; simpl;
    repeat (case_decide; try discriminate); split_and!; lia.
Qed.

Lemma count_overlay (w : nat) (cl cg : mask) :
  Forall (fun r => length r = w) cg ->
  Forall2 (fun rl rg => length rl = length rg) cl cg ->
  count_pixels loss_color (overlay (length cg) w cl cg) = Np.sum cl /\
  count_pixels gain_color (overlay (length cg) w cl cg) =
    Np.sum cg - Np.sum (zip_with (zip_with andb) cg cl) /\
  count_pixels transparent (overlay (length cg) w cl cg) =
    Z.of_nat (length cg * w) - Np.sum cl - Np.sum cg
      + Np.sum (zip_with (zip_with andb) cg cl).
Proof.
  intros Hw H. unfold overlay, paint, zeros, count_pixels, Np.sum.
  induction H as [|rl rg cl cg Hlen _ IH]; [done|].
  apply Forall_cons in Hw as [Hrg Hw]. destruct (IH Hw) as (IH1 & IH2 & IH3).
  simpl. rewrite IH1, IH2, IH3. rewrite <- Hrg.
  destruct (count_row_overlay rl rg Hlen) as (R1 & R2 & R3). simpl in R1, R2, R3.
  rewrite R1, R2, R3. split_and!; lia.
Qed.

(** X15: the picture agrees with the text on losses only.  In every
    image [render] produces from rectangular masks, the pixels in the loss
    colour are as many as the true cells of the loss mask (the count behind
    the reported loss area), whereas the pixels in the gain colour are the
    true cells of the gain mask less those also in the loss mask; all other
    pixels are transparent. *)
Theorem picture_counts (curr : grid) (cl cg : mask) (rgba : ndarray pixel) :
  rect cl -> rect cg ->
  render curr cl cg = Ok rgba ->
  count_pixels (255, 0, 0, 255) rgba = Np.sum cl /\
  count_pixels (255, 255, 0, 255) rgba =
    Np.sum cg - Np.sum (zip_with (zip_with andb) cg cl) /\
  count_pixels (0, 0, 0, 0) rgba =
    Z.of_nat (length curr * ncols curr) - Np.sum cl - Np.sum cg
      + Np.sum (zip_with (zip_with andb) cg cl).
Proof.
  intros Rl Rg H. apply render_Ok in H as (Sg & Sl & ->).
  assert (length cg = length curr /\ ncols cg = ncols curr) as [E1 E2]
    by (unfold shape in Sg; by injection Sg).
  rewrite <- E1.
  apply (count_overlay (ncols curr) cl cg).
  - unfold rect in Rg. by rewrite E2 in Rg.
  - apply same_shape_rows; [done | done | congruence].
Qed.

Lemma picture_counts_witness :
  count_pixels (255, 0, 0, 255) [[(255, 0, 0, 255); (255, 255, 0, 255)]] = 1 /\
  count_pixels (255, 255, 0, 255) [[(255, 0, 0, 255); (255, 255, 0, 255)]] =
    2 - Np.sum (zip_with (zip_with andb) [[true; true]] [[true; false]]).
Proof.
  destruct (picture_counts [[0; 1]] [[true; false]] [[true; true]]
              [[(255, 0, 0, 255); (255, 255, 0, 255)]]) as (H1 & H2 & _);
    [by repeat constructor | by repeat constructor | reflexivity |].
  split; [exact H1 | exact H2].
Defined.

(** ** How a whole run ends *)



Section RunEnds.
Variable transform : Type.
Variable dataset : Type.
Variable listdir : string -> result (list string).
Variable isdir : string -> bool.
Variable rasterio_open : string -> result dataset.
Variable merge : list dataset -> result (list grid * transform).
Variable ttflist : list string.

Local Abbreviation mosaic := (mosaic_year_tiles transform dataset listdir rasterio_open merge).
Local Abbreviation years_of := (list_years listdir isdir).
Local Abbreviation load := (load_years transform dataset listdir rasterio_open merge).
Local Abbreviation loop := (run_loop ttflist).
Local Abbreviation script := (main transform dataset listdir isdir rasterio_open merge ttflist).








End RunEnds.


